(** * The MTA arrival-board data provider (src/data/mta-provider.ts)

    A shallow embedding of the class [MTAProvider]: the decompression of
    the historical departures, the prediction list of [getPredictions] and
    the rotation of the second display row in [getSecondTrain], followed by
    the properties of these operations.

    Conventions of the embedding.
    - A JS [number] that the provider only adds, subtracts and compares
      (seconds, wait times, display positions, indices) is a [Z].
    - A JS object used as a dictionary keyed by stop id is a [gmap string _]
      holding the object's own keys; a [Set<string>] is a [gset string].
    - [undefined] / [null] are the [None] of an [option].
    - The instant sampled by [new Date()] is an explicit argument.
    - A method that assigns to the fields of [this] and may throw is a
      function from the provider to an outcome and the provider it leaves
      behind (the monad [Method] below). *)

From Stdlib Require Import QArith Qround Ascii.
From stdpp Require Import base option list gmap strings pretty sorting.

Close Scope Q_scope.

#[local] Set Warnings "-clear-no-such-hyp".

Local Open Scope Z_scope.

(** ** src/utils/constants.ts *)

Definition MAX_NUM_PREDICTIONS : nat := 6.

(** ** src/data/types.ts *)

(** [DayType] is a union of string literals; a day code that
    [decompressHistoricalData] does not recognise is kept as it is, so the
    carrier is [string]. *)
Definition DayType : Type := string.

Module DayType.
Definition WEEKDAY : DayType := "weekday"%string.
Definition SATURDAY : DayType := "saturday"%string.
Definition SUNDAY : DayType := "sunday"%string.
End DayType.

Module HistoricalTrainTime.
(** [long_name] is read from the name table by index and is [undefined]
    ([None]) when the index is out of range. *)
Record t : Type := mk {
  route_id : string;
  direction_id : string;
  long_name : option string;
  departure_time : Z;
  trip_id : string;
  day_type : DayType
}.
End HistoricalTrainTime.
Abbreviation HistoricalTrainTime := HistoricalTrainTime.t.

Module TrainTime.
Record t : Type := mk {
  route_id : string;
  direction_id : string;
  long_name : option string;
  time : Z;
  display_order : Z;
  stop_headsign : option string;
  trip_id : string;
  is_express : bool
}.

(** [p.display_order = i] *)
Definition set_display_order (i : Z) (p : t) : t :=
  mk (route_id p) (direction_id p) (long_name p) (time p) i
     (stop_headsign p) (trip_id p) (is_express p).
End TrainTime.
Abbreviation TrainTime := TrainTime.t.

Module Station.
(** The coordinates of a station are floating-point numbers that the
    provider never reads; they are left out. *)
Record t : Type := mk {
  stop_id : string;
  stop_name : string;
  north_direction_label : string;
  south_direction_label : string;
  routes : list string;
  children : option (list string)
}.
End Station.
Abbreviation Station := Station.t.

Abbreviation HistoricalData := (gmap string (list HistoricalTrainTime)).

(** ** src/data/mta-provider.ts *)

(** One row of the compressed format:
    [route_id, direction_id, name_index, departure_time, day_type_short]. *)
Definition CompressedEntry : Type := (string * string * Z * Z * string)%type.

Record CompressedHistoricalData : Type := {
  names : list string;
  data : gmap string (list CompressedEntry)
}.

(** [new Date()], reduced to the four getters the provider calls. *)
Record Date : Type := {
  getDay : Z;
  getHours : Z;
  getMinutes : Z;
  getSeconds : Z
}.

Record MTAProvider : Type := {
  historicalData : option HistoricalData;
  stations : list Station;
  childStationIds : gset string;
  lastSecondTrain : option TrainTime
}.

(** The provider as the field initialisers of the class leave it. *)
Definition new_MTAProvider : MTAProvider :=
  {| historicalData := None; stations := []; childStationIds := ∅;
     lastSecondTrain := None |}.

(** *** Built-ins of the language used by the provider *)

(** [s.startsWith(sub)] *)
Fixpoint startsWith (s sub : string) {struct sub} : bool :=
  match sub, s with
  | EmptyString, _ => true
  | String _ _, EmptyString => false
  | String a sub', String b s' => Ascii.eqb a b && startsWith s' sub'
  end.

(** [s.includes(sub)] *)
Fixpoint includes (s sub : string) : bool :=
  startsWith s sub ||
  match s with
  | EmptyString => false
  | String _ s' => includes s' sub
  end.

(** [names[i]] for a numeric index [i]. *)
Definition array_get {A : Type} (l : list A) (i : Z) : option A :=
  if i <? 0 then None else l !! Z.to_nat i.

(** [direction.toString()] for an integer direction (the decimal digits,
    with a leading minus sign for a negative number). *)
Definition toString (n : Z) : string := pretty n.

Section array_sort.
Context {A : Type} (compareFn : A → A → Z).

(** [Array.prototype.sort(compareFn)] is a stable sort.  The first entry of
    the array is inserted into its sorted rest in front of the first entry
    it is not greater than, so in front of its equals, which all stood
    behind it. *)
Fixpoint sort_insert (x : A) (l : list A) : list A :=
  match l with
  | [] => [x]
  | y :: l' => if compareFn x y <=? 0 then x :: y :: l'
               else y :: sort_insert x l'
  end.

Fixpoint array_sort (l : list A) : list A :=
  match l with
  | [] => []
  | x :: l' => sort_insert x (array_sort l')
  end.
End array_sort.

(** *** Methods that only read the provider *)

Definition dayTypeMap (code : string) : option DayType :=
  if String.eqb code "w" then Some DayType.WEEKDAY
  else if String.eqb code "s" then Some DayType.SATURDAY
  else if String.eqb code "u" then Some DayType.SUNDAY
  else None.

Definition decompressEntry (names : list string) (entry : CompressedEntry)
  : HistoricalTrainTime :=
  let '(e0, e1, e2, e3, e4) := entry in
  {| HistoricalTrainTime.route_id := e0;
     HistoricalTrainTime.direction_id := e1;
     HistoricalTrainTime.long_name := array_get names e2;
     HistoricalTrainTime.departure_time := e3;
     HistoricalTrainTime.trip_id := "";
     HistoricalTrainTime.day_type := default e4 (dayTypeMap e4) |}.

Definition decompressHistoricalData (compressed : CompressedHistoricalData)
  : HistoricalData :=
  (λ entries : list CompressedEntry, decompressEntry (names compressed) <$> entries)
    <$> data compressed.

Definition getStations (this : MTAProvider) : list Station :=
  filter (λ station, Station.stop_id station ∉ childStationIds this)
         (stations this).

Definition getStation (this : MTAProvider) (stopId : string) : option Station :=
  snd <$> list_find (λ s, Station.stop_id s = stopId) (stations this).

Definition getDayType (date : Date) : DayType :=
  let day := getDay date in
  if day =? 0 then DayType.SUNDAY
  else if day =? 6 then DayType.SATURDAY
  else DayType.WEEKDAY.

Definition getSecondsFromMidnight (date : Date) : Z :=
  getHours date * 3600 + getMinutes date * 60 + getSeconds date.

Definition isExpressTrain (routeId tripId : string) : bool :=
  if negb (String.eqb routeId "4") && negb (String.eqb routeId "6")
  then false
  else includes tripId "_X" || includes tripId "EXPRESS".

(** The body of the inner loop of [getPredictions]: [None] is a [continue],
    [Some p] is the object pushed on [predictions]. *)
Definition predictionOf (currentDayType : DayType) (direction : option Z)
    (currentSecondsFromMidnight : Z) (histTime : HistoricalTrainTime)
  : option TrainTime :=
  if negb (String.eqb (HistoricalTrainTime.day_type histTime) currentDayType)
  then None
  else if match direction with
          | None => false
          | Some d => negb (String.eqb (HistoricalTrainTime.direction_id histTime)
                                        (toString d))
          end
  then None
  else
    let waitTime :=
      HistoricalTrainTime.departure_time histTime - currentSecondsFromMidnight in
    let waitTime := if waitTime <? 0 then waitTime + 24 * 3600 else waitTime in
    if waitTime >? 3600 then None
    else if waitTime <? 0 then None
    else
      let isExpress :=
        isExpressTrain (HistoricalTrainTime.route_id histTime)
                       (HistoricalTrainTime.trip_id histTime) in
      Some {| TrainTime.route_id := HistoricalTrainTime.route_id histTime;
              TrainTime.direction_id := HistoricalTrainTime.direction_id histTime;
              TrainTime.long_name := HistoricalTrainTime.long_name histTime;
              TrainTime.time := waitTime;
              TrainTime.display_order := 0;
              TrainTime.stop_headsign := None;
              TrainTime.trip_id := HistoricalTrainTime.trip_id histTime;
              TrainTime.is_express := isExpress |}.

(** The inner loop: the predictions of one station's records are pushed
    behind those collected so far. *)
Definition pushStation (currentDayType : DayType) (direction : option Z)
    (currentSecondsFromMidnight : Z) (historicalTimes : list HistoricalTrainTime)
    (predictions : list TrainTime) : list TrainTime :=
  fold_left
    (λ predictions histTime,
       match predictionOf currentDayType direction
                          currentSecondsFromMidnight histTime with
       | None => predictions
       | Some p => predictions ++ [p]
       end)
    historicalTimes predictions.

(** The outer loop over [stationIdsToCheck]. *)
Definition collectPredictions (hd : HistoricalData) (currentDayType : DayType)
    (direction : option Z) (currentSecondsFromMidnight : Z)
    (stationIdsToCheck : list string) : list TrainTime :=
  fold_left
    (λ predictions stationId,
       match hd !! stationId with
       | None => predictions
       | Some historicalTimes =>
           pushStation currentDayType direction currentSecondsFromMidnight
                       historicalTimes predictions
       end)
    stationIdsToCheck [].

(** [predictions.forEach((p, i) => { p.display_order = i; })] *)
Definition assignDisplayOrder (predictions : list TrainTime) : list TrainTime :=
  imap (λ i p, TrainTime.set_display_order (Z.of_nat i) p) predictions.

Definition stationIdsToCheck (this : MTAProvider) (stopId : string)
  : list string :=
  [stopId] ++
  match getStation this stopId with
  | Some station => default [] (Station.children station)
  | None => []
  end.

(** [getPredictions(stopId, direction)], with the sampled instant [now].
    Every call builds fresh prediction objects, so the entry remembered by
    [lastSecondTrain] is not touched by a later call. *)
Definition getPredictions (this : MTAProvider) (stopId : string)
    (direction : option Z) (now : Date) : list TrainTime :=
  match historicalData this with
  | None => []
  | Some hd =>
      let predictions :=
        collectPredictions hd (getDayType now) direction
                           (getSecondsFromMidnight now)
                           (stationIdsToCheck this stopId) in
      let predictions :=
        array_sort (λ a b, TrainTime.time a - TrainTime.time b) predictions in
      let predictions := assignDisplayOrder predictions in
      take MAX_NUM_PREDICTIONS predictions
  end.

(** *** Methods that assign to the provider *)

(** What a call leaves behind: a returned value, or a thrown exception (a
    rejected promise, for an [async] method). *)
Inductive Outcome (A : Type) : Type :=
  | Returned (a : A)
  | Thrown.
Arguments Returned {A} a.
Arguments Thrown {A}.

(** A method body: it runs on the provider and hands over the provider as
    its assignments left it, also when it throws. *)
Definition Method (A : Type) : Type := MTAProvider → Outcome A * MTAProvider.

#[global] Instance Method_ret : MRet Method :=
  λ A (a : A) this, (Returned a, this).

#[global] Instance Method_bind : MBind Method :=
  λ A B (k : A → Method B) (m : Method A) this,
    match m this with
    | (Returned a, this') => k a this'
    | (Thrown, this') => (Thrown, this')
    end.

(** The document an [await fetch(url)] followed by [await response.json()]
    delivers: the parsed value, or a rejection (the request failed or the
    body is not JSON). *)
Inductive Fetched (A : Type) : Type :=
  | Resolved (a : A)
  | Rejected.
Arguments Resolved {A} a.
Arguments Rejected {A}.

Definition await {A : Type} (doc : Fetched A) : Method A :=
  λ this,
    match doc with
    | Resolved a => (Returned a, this)
    | Rejected => (Thrown, this)
    end.

Definition set_historicalData (hd : option HistoricalData) : Method unit :=
  λ this,
    (Returned tt,
     {| historicalData := hd; stations := stations this;
        childStationIds := childStationIds this;
        lastSecondTrain := lastSecondTrain this |}).

Definition set_stations (sts : list Station) : Method unit :=
  λ this,
    (Returned tt,
     {| historicalData := historicalData this; stations := sts;
        childStationIds := childStationIds this;
        lastSecondTrain := lastSecondTrain this |}).

Definition set_childStationIds (ids : gset string) : Method unit :=
  λ this,
    (Returned tt,
     {| historicalData := historicalData this; stations := stations this;
        childStationIds := ids;
        lastSecondTrain := lastSecondTrain this |}).

Definition set_lastSecondTrain (t : option TrainTime) : Method unit :=
  λ this,
    (Returned tt,
     {| historicalData := historicalData this; stations := stations this;
        childStationIds := childStationIds this;
        lastSecondTrain := t |}).

Definition get_stations : Method (list Station) :=
  λ this, (Returned (stations this), this).

Definition get_lastSecondTrain : Method (option TrainTime) :=
  λ this, (Returned (lastSecondTrain this), this).

(** The two loops of [buildChildStationSet] over the stations and their
    children, adding to the cleared set. *)
Definition addChildren (ids : gset string) (station : Station) : gset string :=
  match Station.children station with
  | Some children => fold_left (λ ids childId, {[childId]} ∪ ids) children ids
  | None => ids
  end.

Definition buildChildStationSet : Method unit :=
  set_childStationIds ∅;;
  sts ← get_stations;
  set_childStationIds (fold_left addChildren sts ∅).

(** [loadData()], given what the two requests deliver. *)
Definition loadData (histDoc : Fetched CompressedHistoricalData)
    (stationsDoc : Fetched (list Station)) : Method unit :=
  compressedData ← await histDoc;
  set_historicalData (Some (decompressHistoricalData compressedData));;
  sts ← await stationsDoc;
  set_stations sts;;
  buildChildStationSet.

(** The loop of [getSecondTrain] that looks for the remembered position:
    the index, counted from [i], of the first entry whose [display_order]
    is [order]. *)
Fixpoint findDisplayOrder (order : Z) (predictions : list TrainTime) (i : nat)
  : option nat :=
  match predictions with
  | [] => None
  | p :: rest =>
      if TrainTime.display_order p =? order then Some i
      else findDisplayOrder order rest (S i)
  end.

Definition getSecondTrain (predictions : list TrainTime)
  : Method (option TrainTime) :=
  if (length predictions <? 2)%nat then mret None
  else
    last ← get_lastSecondTrain;
    match last with
    | None =>
        set_lastSecondTrain (predictions !! 1%nat);;
        mret (predictions !! 1%nat)
    | Some last =>
        match findDisplayOrder (TrainTime.display_order last) predictions 0 with
        | Some i =>
            let nextId := (i + 1)%nat in
            let nextId := if (length predictions <=? nextId)%nat then 1%nat
                          else nextId in
            set_lastSecondTrain (predictions !! nextId);;
            mret (predictions !! nextId)
        | None =>
            set_lastSecondTrain (predictions !! 1%nat);;
            mret (predictions !! 1%nat)
        end
    end.

(** [n] successive refreshes of the second row over the same list. *)
Fixpoint repeatSecondTrain (n : nat) (predictions : list TrainTime)
  : Method (list (option TrainTime)) :=
  match n with
  | O => mret []
  | S n' =>
      r ← getSecondTrain predictions;
      rs ← repeatSecondTrain n' predictions;
      mret (r :: rs)
  end.

(** ** The application (main.ts) *)

(** The fields of [MTASimulator] that [refresh] reads and assigns. *)
Record MTASimulator : Type := {
  provider : MTAProvider;
  currentStation : string;
  currentDirection : option Z;
  predictions : list TrainTime
}.

(** [refresh()] up to the call of the renderer: the new state of the
    application and the list [displayPredictions] handed to [render].  The
    provider is called before the first [await], so the refreshes of the
    interval timer go through the provider one after the other. *)
Definition refresh (now : Date) (app : MTASimulator)
  : Outcome (list TrainTime) * MTASimulator :=
  let predictions :=
    getPredictions (provider app) (currentStation app) (currentDirection app)
                   now in
  match predictions with
  | [] =>
      (Returned [],
       {| provider := provider app; currentStation := currentStation app;
          currentDirection := currentDirection app;
          predictions := predictions |})
  | first :: _ =>
      match getSecondTrain predictions (provider app) with
      | (Returned secondTrain, provider') =>
          (Returned (first :: match secondTrain with
                              | Some second => [second]
                              | None => []
                              end),
           {| provider := provider'; currentStation := currentStation app;
              currentDirection := currentDirection app;
              predictions := predictions |})
      | (Thrown, provider') =>
          (Thrown,
           {| provider := provider'; currentStation := currentStation app;
              currentDirection := currentDirection app;
              predictions := predictions |})
      end
  end.

(** The refreshes the interval timer of [startAutoRefresh] triggers, at the
    instants [nows], with what each one displays. *)
Fixpoint refreshes (nows : list Date) (app : MTASimulator)
  : Outcome (list (list TrainTime)) * MTASimulator :=
  match nows with
  | [] => (Returned [], app)
  | now :: rest =>
      match refresh now app with
      | (Returned displayed, app') =>
          match refreshes rest app' with
          | (Returned more, app'') => (Returned (displayed :: more), app'')
          | (Thrown, app'') => (Thrown, app'')
          end
      | (Thrown, app') => (Thrown, app')
      end
  end.

(** [label || fallback] on strings: the empty string is falsy. *)
Definition orElse (label fallback : string) : string :=
  match label with
  | EmptyString => fallback
  | _ => label
  end.

Definition getDirectionLabel (app : MTASimulator) (station : Station) : string :=
  match currentDirection app with
  | Some d =>
      if d =? 0 then orElse (Station.north_direction_label station) "Uptown"
      else if d =? 1 then orElse (Station.south_direction_label station) "Downtown"
      else "Both"
  | None => "Both"
  end.

(** ** More of src/utils/constants.ts *)

Definition DISPLAY_WIDTH : Z := 160.
Definition DISPLAY_HEIGHT : Z := 32.
Definition MTA_GREEN : string := "#D0FF00".
Definition MTA_RED_AMBER : string := "#E28522".
Definition BLACK : string := "#000000".
Definition ICON_SIZE : Z := 16.

(** The object [ROUTE_COLORS], entry by entry. *)
Definition ROUTE_COLORS : list (string * string) :=
  [("1", "#EE0900"); ("2", "#EE0900"); ("3", "#EE0900");
   ("4", "#3CBE3C"); ("5", "#3CBE3C"); ("6", "#3CBE3C");
   ("7", "#B200A2");
   ("A", "#33BBFF"); ("C", "#33BBFF"); ("E", "#33BBFF");
   ("G", "#AED92B");
   ("B", "#FF6800"); ("D", "#FF6800"); ("F", "#FF6800"); ("M", "#FF6800");
   ("J", "#B37F2D"); ("Z", "#B37F2D");
   ("L", "#898888");
   ("GS", "#545661");
   ("N", "#FCBB0A"); ("Q", "#FCBB0A"); ("R", "#FCBB0A"); ("W", "#FCBB0A");
   ("SI", "#33BBFF")]%string.

(** The object [ABBREVIATIONS], entry by entry. *)
Definition ABBREVIATIONS : list (string * string) :=
  [("center", "ctr"); ("Center", "Ctr");
   ("junction", "jct"); ("Junction", "Jct")]%string.

(** ** The content renderer (renderer/mta-renderer.ts) *)

(** [Math.round]: the nearest integer, a half going up.  The provider's
    times are integers well below 2^53; their quotients by 60 are at least
    1/60 away from the next half, far more than the rounding of a double,
    so that the exact quotient and the computed one round alike. *)
Definition Math_round (x : Q) : Z := Qfloor (x + (1 # 2))%Q.

(** The test [shouldBlink] of [render]. *)
Definition shouldBlink (predictions : list TrainTime) : bool :=
  match predictions with
  | [] => false
  | first :: _ => (TrainTime.time first >? 20) && (TrainTime.time first <=? 30)
  end.



Definition minutes (train : TrainTime) : Z :=
  Math_round (inject_Z (TrainTime.time train) / 60)%Q.

Definition isArriving (train : TrainTime) (rowIndex : nat) : bool :=
  (TrainTime.time train <=? 30) && (rowIndex =? 0)%nat.

Definition textColor (train : TrainTime) (rowIndex : nat) : string :=
  if isArriving train rowIndex then MTA_RED_AMBER else MTA_GREEN.


Definition minutesText (train : TrainTime) : string :=
  toString (minutes train) +:+ "min".

(** ** The icon renderer (renderer/image-renderer.ts) *)

Definition getIconFilename (routeId : string) (isExpress : bool) : string :=
  if isExpress && (String.eqb routeId "4" || String.eqb routeId "6")
  then "mta_" +:+ routeId +:+ "_express.png"
  else "mta_" +:+ routeId +:+ ".png".

(** The file names for which [preloadIcons] calls [loadIcon], in the order
    of the calls. *)
Definition preloadIcons_files : list string :=
  ROUTE_COLORS.*1 ≫= (λ route,
    [getIconFilename route false] ++
    if String.eqb route "4" || String.eqb route "6"
    then [getIconFilename route true] else []).


Module RGB.
Record t : Type := mk { r : Z; g : Z; b : Z }.
End RGB.
Abbreviation RGB := RGB.t.

(** One character of the class [[a-f\d]] under the flag [i], with the
    value [parseInt] gives it in base 16. *)
Definition hexDigit (c : Ascii.ascii) : option Z :=
  let n := Z.of_N (Ascii.N_of_ascii c) in
  if (48 <=? n) && (n <=? 57) then Some (n - 48)
  else if (97 <=? n) && (n <=? 102) then Some (n - 87)
  else if (65 <=? n) && (n <=? 70) then Some (n - 55)
  else None.

(** [parseInt(pair, 16)] of a group of two such characters. *)
Definition parseHexPair (hi lo : Ascii.ascii) : option Z :=
  match hexDigit hi, hexDigit lo with
  | Some h, Some l => Some (16 * h + l)
  | _, _ => None
  end.

(** [hexToRgb]: the expression [/^#?([a-f\d]{2})([a-f\d]{2})([a-f\d]{2})$/i]
    matches an optional "#" followed by exactly six hexadecimal digits;
    without a match the result is black. *)
Definition hexToRgb (hex : string) : RGB :=
  let digits := match hex with
                | String "#"%char rest => rest
                | _ => hex
                end in
  match digits with
  | String r1 (String r2 (String g1 (String g2 (String b1 (String b2 EmptyString))))) =>
      match parseHexPair r1 r2, parseHexPair g1 g2, parseHexPair b1 b2 with
      | Some r, Some g, Some b => RGB.mk r g b
      | _, _, _ => RGB.mk 0 0 0
      end
  | _ => RGB.mk 0 0 0
  end.

(** [Math.round(factor * channel)] with [factor = grayscale / 255].  For
    bytes the exact product is at least 1/510 away from every half, so the
    doubles round as the exact values do. *)
Definition tint (grayscale channel : Z) : Z :=
  Math_round (inject_Z grayscale / 255 * inject_Z channel)%Q.

(** The loop of [getColoredIcon] over the bytes of the image, four to a
    pixel; a write behind the end of the array does nothing. *)
Fixpoint applyColor (targetColor : RGB) (data : list Z) : list Z :=
  match data with
  | grayscale :: g :: b :: a :: rest =>
      tint grayscale (RGB.r targetColor) :: tint grayscale (RGB.g targetColor)
      :: tint grayscale (RGB.b targetColor) :: a
      :: applyColor targetColor rest
  | [grayscale; g; b] =>
      [tint grayscale (RGB.r targetColor); tint grayscale (RGB.g targetColor);
       tint grayscale (RGB.b targetColor)]
  | [grayscale; g] =>
      [tint grayscale (RGB.r targetColor); tint grayscale (RGB.g targetColor)]
  | [grayscale] => [tint grayscale (RGB.r targetColor)]
  | [] => []
  end.

(** ** The canvas renderer (renderer/canvas-renderer.ts) *)

(** [setPixel] on the bytes [imageData.data]; a typed array ignores a
    write outside its bounds, as the list update does. *)
Definition setPixel (x y : Z) (color : string) (data : list Z) : list Z :=
  if (x <? 0) || (x >=? DISPLAY_WIDTH) || (y <? 0) || (y >=? DISPLAY_HEIGHT)
  then data
  else
    let rgb := hexToRgb color in
    let index := (y * DISPLAY_WIDTH + x) * 4 in
    let data := <[Z.to_nat index := RGB.r rgb]> data in
    let data := <[Z.to_nat (index + 1) := RGB.g rgb]> data in
    let data := <[Z.to_nat (index + 2) := RGB.b rgb]> data in
    <[Z.to_nat (index + 3) := 255]> data.

(** ** The text renderer (renderer/text-renderer.ts) *)

(** [s.split(sep)] for a separator of one character: never an empty list. *)
Fixpoint string_split (sep : Ascii.ascii) (s : string) : list string :=
  match s with
  | EmptyString => [EmptyString]
  | String c rest =>
      if Ascii.eqb c sep then EmptyString :: string_split sep rest
      else match string_split sep rest with
           | word :: others => String c word :: others
           | [] => [String c EmptyString]
           end
  end.

(** [parts.join(sep)] *)
Fixpoint string_join (sep : string) (parts : list string) : string :=
  match parts with
  | [] => ""
  | part :: rest =>
      match rest with
      | [] => part
      | _ :: _ => part +:+ sep +:+ string_join sep rest
      end
  end.

(** [s.substring(0, i)] and the rest of [s] behind it. *)
Fixpoint substring_to (i : nat) (s : string) : string :=
  match i, s with
  | S i', String c rest => String c (substring_to i' rest)
  | _, _ => ""
  end.

Fixpoint substring_from (i : nat) (s : string) : string :=
  match i, s with
  | S i', String _ rest => substring_from i' rest
  | _, _ => s
  end.

(** [s.replace(full, abbr)] for strings: the first occurrence of [full] is
    replaced (the replacements of [ABBREVIATIONS] hold no [$] pattern). *)
Fixpoint string_replace (full abbr s : string) : string :=
  if startsWith s full
  then abbr +:+ substring_from (String.length full) s
  else match s with
       | EmptyString => EmptyString
       | String c rest => String c (string_replace full abbr rest)
       end.

(** Step 2 of [truncateTextSmart]: the loop over [ABBREVIATIONS]. *)
Definition abbreviate (text : string) : string :=
  fold_left (λ abbreviated entry, string_replace entry.1 entry.2 abbreviated)
            ABBREVIATIONS text.

(** Step 3: [for (let i = words.length - 1; i > 0; i--)], entered at [i]. *)
Fixpoint truncateWords (fits : string → bool) (words : list string) (i : nat)
  : option string :=
  match i with
  | O => None
  | S i' =>
      let truncated := string_join " " (take i words) in
      if fits truncated then Some truncated
      else truncateWords fits words i'
  end.

(** Step 4: [for (let i = abbreviated.length - 1; i > 0; i--)]. *)
Fixpoint truncateChars (fits : string → bool) (abbreviated : string) (i : nat)
  : option string :=
  match i with
  | O => None
  | S i' =>
      let truncated := substring_to i abbreviated in
      if fits truncated then Some truncated
      else truncateChars fits abbreviated i'
  end.

(** [truncateTextSmart(text, availableWidth)]; [fits s] stands for the test
    [this.measureText(s) <= availableWidth], the only use the method makes
    of the canvas and of the width. *)
Definition truncateTextSmart (fits : string → bool) (text : string) : string :=
  if fits text then text
  else
    match
      (if includes text "-" then
         let parts := string_split "-" text in
         let withoutSuffix := default "" (head parts) in
         if fits withoutSuffix then Some withoutSuffix else None
       else None)
    with
    | Some withoutSuffix => withoutSuffix
    | None =>
        let abbreviated := abbreviate text in
        if fits abbreviated then abbreviated
        else
          let words := string_split " " abbreviated in
          match truncateWords fits words (length words - 1) with
          | Some truncated => truncated
          | None =>
              match truncateChars fits abbreviated
                                  (String.length abbreviated - 1) with
              | Some truncated => truncated
              | None => ""
              end
          end
    end.

(** ** The provider before child stations (src/unnamed/part_000) *)

(** [getPredictions] of the earlier provider: the stop is looked up alone;
    the loop, the sort, the numbering and the cut are those of the later
    one. *)
Definition getPredictions_single (this : MTAProvider) (stopId : string)
    (direction : option Z) (now : Date) : list TrainTime :=
  match historicalData this with
  | None => []
  | Some hd =>
      match hd !! stopId with
      | None => []
      | Some historicalTimes =>
          let predictions :=
            pushStation (getDayType now) direction (getSecondsFromMidnight now)
                        historicalTimes [] in
          let predictions :=
            array_sort (λ a b, TrainTime.time a - TrainTime.time b) predictions in
          let predictions := assignDisplayOrder predictions in
          take MAX_NUM_PREDICTIONS predictions
      end
  end.

(** * Vocabulary of the properties *)

(** The records of one stop that [getPredictions] goes through: none when
    the stop has no entry in the historical data. *)
Definition recordsOf (hd : HistoricalData) (stationId : string)
  : list HistoricalTrainTime :=
  default [] (hd !! stationId).

(** The two filters in front of the wait-time computation. *)
Definition requested (currentDayType : DayType) (direction : option Z)
    (histTime : HistoricalTrainTime) : Prop :=
  HistoricalTrainTime.day_type histTime = currentDayType ∧
  ∀ d, direction = Some d →
       HistoricalTrainTime.direction_id histTime = toString d.

(** The array [predictions] of [getPredictions] as the two loops leave it,
    before it is sorted (empty when no data is loaded). *)
Definition collectedPredictions (this : MTAProvider) (stopId : string)
    (direction : option Z) (now : Date) : list TrainTime :=
  match historicalData this with
  | None => []
  | Some hd =>
      collectPredictions hd (getDayType now) direction
                         (getSecondsFromMidnight now)
                         (stationIdsToCheck this stopId)
  end.

Definition byTime : TrainTime → TrainTime → Z :=
  λ a b, TrainTime.time a - TrainTime.time b.

Definition timeLe : relation TrainTime :=
  λ a b, TrainTime.time a ≤ TrainTime.time b.

(** [sub] occurs in [s]. *)
Definition substring_of (sub s : string) : Prop :=
  ∃ pre post, s = pre +:+ sub +:+ post.

(** A station is a descendant of another when a chain of [children] lists
    leads from the one to the other. *)
Inductive descendant (sts : list Station) : string → string → Prop :=
  | descendant_child parent children child :
      parent ∈ sts →
      Station.children parent = Some children →
      child ∈ children →
      descendant sts (Station.stop_id parent) child
  | descendant_trans a b c :
      descendant sts a b → descendant sts b c → descendant sts a c.

(** The prediction list as [getPredictions] numbers it: the entry at index
    [i] has [display_order = i]. *)
Definition ranked (predictions : list TrainTime) : Prop :=
  ∀ (i : nat) p, predictions !! i = Some p →
                 TrainTime.display_order p = Z.of_nat i.

(** The index [getSecondTrain] selects on a list of at least two entries,
    given the entry it remembers. *)
Definition secondIndex (predictions : list TrainTime)
    (last : option TrainTime) : nat :=
  match last with
  | None => 1
  | Some last =>
      match findDisplayOrder (TrainTime.display_order last) predictions 0 with
      | Some i => if (length predictions <=? i + 1)%nat then 1 else i + 1
      | None => 1
      end
  end%nat.

Definition remember (t : option TrainTime) (this : MTAProvider) : MTAProvider :=
  {| historicalData := historicalData this; stations := stations this;
     childStationIds := childStationIds this; lastSecondTrain := t |}.

(** The ranges of the getters of a [Date]. *)
Definition validClock (date : Date) : Prop :=
  0 ≤ getDay date ≤ 6 ∧ 0 ≤ getHours date ≤ 23 ∧
  0 ≤ getMinutes date ≤ 59 ∧ 0 ≤ getSeconds date ≤ 59.

(** Some station of [sts] lists [id] among its children. *)
Definition listedChild (sts : list Station) (id : string) : Prop :=
  ∃ parent children,
    parent ∈ sts ∧ Station.children parent = Some children ∧ id ∈ children.

(** The application after a refresh that found [l] and left [provider']. *)
Definition refreshed (app : MTASimulator) (l : list TrainTime)
    (provider' : MTAProvider) : MTASimulator :=
  {| provider := provider'; currentStation := currentStation app;
     currentDirection := currentDirection app; predictions := l |}.

(** What the application finds at the instant [now]. *)
Definition found (app : MTASimulator) (now : Date) : list TrainTime :=
  getPredictions (provider app) (currentStation app) (currentDirection app) now.

(** [p] is the beginning of [s]. *)
Definition prefix_of (p s : string) : Prop := ∃ rest, s = p +:+ rest.

(** * Properties *)

(** ** The sort *)

Section sort_by_key.
Context {A : Type} (key : A → Z).

Let compareFn : A → A → Z := λ a b, key a - key b.

Lemma sort_insert_perm (cmp : A → A → Z) (x : A) (l : list A) :
  sort_insert cmp x l ≡ₚ x :: l.
Proof.
  induction l as [|y l IH]; simpl; [done|].
  destruct (cmp x y <=? 0); [done|].
  rewrite IH. apply Permutation_swap.
Qed.

Lemma array_sort_perm (cmp : A → A → Z) (l : list A) :
  array_sort cmp l ≡ₚ l.
Proof.
  induction l as [|x l IH]; simpl; [done|].
  by rewrite sort_insert_perm, IH.
Qed.

Lemma sort_insert_sorted (x : A) (l : list A) :
  StronglySorted (λ a b, key a ≤ key b) l →
  StronglySorted (λ a b, key a ≤ key b) (sort_insert compareFn x l).
Proof.
  induction 1 as [|y l Hl IH Hy]; simpl.
  - repeat constructor.
  - unfold compareFn at 1. destruct (Z.leb_spec (key x - key y) 0) as [Hxy|Hxy].
    + constructor; [by constructor|].
      constructor; [lia|].
      eapply Forall_impl; [exact Hy|]. simpl. intros; lia.
    + constructor; [done|].
      rewrite sort_insert_perm. constructor; [lia | done].
Qed.

Lemma array_sort_sorted (l : list A) :
  StronglySorted (λ a b, key a ≤ key b) (array_sort compareFn l).
Proof.
  induction l as [|x l IH]; simpl; [constructor|].
  by apply sort_insert_sorted.
Qed.

(** Stability: the entries of any one key keep their order. *)
Lemma sort_insert_stable (t : Z) (x : A) (l : list A) :
  filter (λ a, key a = t) (sort_insert compareFn x l)
  = filter (λ a, key a = t) (x :: l).
Proof.
  induction l as [|y l IH]; simpl; [done|].
  unfold compareFn at 1. destruct (Z.leb_spec (key x - key y) 0) as [Hxy|Hxy]; [done|].
  rewrite (filter_cons _ y), IH, !(filter_cons _ x), (filter_cons _ y).
  repeat case_decide; try done; lia.
Qed.

Lemma array_sort_stable (t : Z) (l : list A) :
  filter (λ a, key a = t) (array_sort compareFn l)
  = filter (λ a, key a = t) l.
Proof.
  induction l as [|x l IH]; simpl; [done|].
  by rewrite sort_insert_stable, !filter_cons, IH.
Qed.
End sort_by_key.

(** Two sorted lists that agree, key by key, on the order of their entries
    are the same list: the result of a stable sort does not depend on the
    algorithm that computes it. *)
Lemma stable_sorted_unique {A : Type} (key : A → Z) (l1 l2 : list A) :
  StronglySorted (λ a b, key a ≤ key b) l1 →
  StronglySorted (λ a b, key a ≤ key b) l2 →
  (∀ t, filter (λ a, key a = t) l1 = filter (λ a, key a = t) l2) →
  l1 = l2.
Proof.
  intros H1. revert l2.
  induction H1 as [|x l1 Hs1 IH Hx]; intros l2 H2 Hf.
  - destruct l2 as [|y l2]; [done|].
    specialize (Hf (key y)). rewrite filter_cons_True in Hf by done. done.
  - destruct H2 as [|y l2 Hs2 Hy].
    { specialize (Hf (key x)). rewrite filter_cons_True in Hf by done. done. }
    assert (key x = key y) as Hk.
    { destruct (Z.lt_trichotomy (key x) (key y)) as [Hlt|[?|Hlt]]; [|done|].
      - pose proof (Hf (key x)) as Hfx.
        rewrite filter_cons_True, filter_cons_False in Hfx by (done || lia).
        assert (x ∈ filter (λ a, key a = key x) l2) as Hin
          by (rewrite <- Hfx; left).
        apply list_elem_of_filter in Hin as [_ Hin].
        rewrite Forall_forall in Hy. specialize (Hy _ Hin). simpl in Hy. lia.
      - pose proof (Hf (key y)) as Hfy.
        rewrite (filter_cons_True _ y), filter_cons_False in Hfy by (done || lia).
        assert (y ∈ filter (λ a, key a = key y) l1) as Hin
          by (rewrite Hfy; left).
        apply list_elem_of_filter in Hin as [_ Hin].
        rewrite Forall_forall in Hx. specialize (Hx _ Hin). simpl in Hx. lia. }
    pose proof (Hf (key x)) as Hfx.
    rewrite !filter_cons_True in Hfx by done.
    injection Hfx as -> Hfx. f_equal.
    apply IH; [done|]. intros t.
    destruct (decide (key y = t)) as [<-|Hne]; [done|].
    specialize (Hf t). by rewrite !filter_cons_False in Hf by done.
Qed.

(** Whatever computes [Array.prototype.sort] by [a.time - b.time], if its
    result is sorted and stable it is the list [array_sort] gives. *)
Lemma array_sort_canonical {A : Type} (key : A → Z) (l l' : list A) :
  StronglySorted (λ a b, key a ≤ key b) l' →
  (∀ t, filter (λ a, key a = t) l' = filter (λ a, key a = t) l) →
  l' = array_sort (λ a b, key a - key b) l.
Proof.
  intros Hs Hf. apply (stable_sorted_unique key); [done| |].
  - apply array_sort_sorted.
  - intros t. by rewrite array_sort_stable.
Qed.

(** ** The loops of [getPredictions] *)

Lemma pushStation_app dt dir cur (times : list HistoricalTrainTime)
    (acc : list TrainTime) :
  pushStation dt dir cur times acc = acc ++ omap (predictionOf dt dir cur) times.
Proof.
  unfold pushStation. revert acc.
  induction times as [|h times IH]; intros acc; simpl.
  - by rewrite app_nil_r.
  - rewrite IH. destruct (predictionOf dt dir cur h); [|done].
    by rewrite <- app_assoc.
Qed.

Lemma collectPredictions_bind hd dt dir cur (ids : list string) :
  collectPredictions hd dt dir cur ids
  = ids ≫= (λ id, omap (predictionOf dt dir cur) (recordsOf hd id)).
Proof.
  unfold collectPredictions.
  enough (∀ acc,
    fold_left
      (λ predictions stationId,
         match hd !! stationId with
         | None => predictions
         | Some historicalTimes =>
             pushStation dt dir cur historicalTimes predictions
         end) ids acc
    = acc ++ (ids ≫= (λ id, omap (predictionOf dt dir cur) (recordsOf hd id))))
    as H by apply (H []).
  induction ids as [|id ids IH]; intros acc; simpl.
  - by rewrite app_nil_r.
  - rewrite IH. unfold recordsOf at 2.
    destruct (hd !! id) as [times|]; simpl; [|done].
    by rewrite pushStation_app, <- app_assoc.
Qed.

Lemma elem_of_collectPredictions hd dt dir cur (ids : list string) (p : TrainTime) :
  p ∈ collectPredictions hd dt dir cur ids ↔
  ∃ id h, id ∈ ids ∧ h ∈ recordsOf hd id ∧ predictionOf dt dir cur h = Some p.
Proof.
  rewrite collectPredictions_bind, list_elem_of_bind.
  setoid_rewrite list_elem_of_omap. naive_solver.
Qed.

Lemma predictionOf_Some dt dir cur h p :
  predictionOf dt dir cur h = Some p ↔
  requested dt dir h ∧
  let naive := HistoricalTrainTime.departure_time h - cur in
  let wait := if decide (naive < 0) then naive + 86400 else naive in
  0 ≤ wait ≤ 3600 ∧
  p = {| TrainTime.route_id := HistoricalTrainTime.route_id h;
         TrainTime.direction_id := HistoricalTrainTime.direction_id h;
         TrainTime.long_name := HistoricalTrainTime.long_name h;
         TrainTime.time := wait;
         TrainTime.display_order := 0;
         TrainTime.stop_headsign := None;
         TrainTime.trip_id := HistoricalTrainTime.trip_id h;
         TrainTime.is_express :=
           isExpressTrain (HistoricalTrainTime.route_id h)
                          (HistoricalTrainTime.trip_id h) |}.
Proof.
  unfold predictionOf, requested. simpl.
  destruct (String.eqb_spec (HistoricalTrainTime.day_type h) dt) as [Hd|Hd]; simpl;
    [|naive_solver].
  assert ((∀ d, dir = Some d → HistoricalTrainTime.direction_id h = toString d)
          ↔ match dir with
            | None => false
            | Some d => negb (String.eqb (HistoricalTrainTime.direction_id h)
                                         (toString d))
            end = false) as Hdir.
  { destruct dir as [d|]; [|naive_solver].
    destruct (String.eqb_spec (HistoricalTrainTime.direction_id h) (toString d));
      naive_solver. }
  destruct (match dir with None => false | Some d => _ end); [naive_solver|].
  set (naive := HistoricalTrainTime.departure_time h - cur).
  assert ((if naive <? 0 then naive + 24 * 3600 else naive)
          = (if decide (naive < 0) then naive + 86400 else naive)) as ->.
  { destruct (Z.ltb_spec naive 0); case_decide; lia. }
  set (wait := if decide (naive < 0) then naive + 86400 else naive).
  destruct (Z.gtb_spec wait 3600); [naive_solver lia|].
  destruct (Z.ltb_spec wait 0); [naive_solver lia|].
  split.
  - intros [= <-]. split; [naive_solver|]. split; [lia|done].
  - intros (_ & _ & ->). done.
Qed.

(** ** Wait times *)

(** C1. A record that passes the day-type and direction filters gets the
    wait time [departure_time - now], plus 86400 exactly when that
    difference is negative, and it is pushed on the prediction list if and
    only if this adjusted wait lies in [0, 3600]. *)
Theorem C1_wait_time_window dt dir cur (h : HistoricalTrainTime) :
  requested dt dir h →
  let naive := HistoricalTrainTime.departure_time h - cur in
  let wait := if decide (naive < 0) then naive + 86400 else naive in
  (∀ p, predictionOf dt dir cur h = Some p → TrainTime.time p = wait) ∧
  (is_Some (predictionOf dt dir cur h) ↔ 0 ≤ wait ≤ 3600) ∧
  (∀ hd (ids : list string) id, id ∈ ids → h ∈ recordsOf hd id →
     ((∃ p, predictionOf dt dir cur h = Some p ∧
            p ∈ collectPredictions hd dt dir cur ids)
      ↔ 0 ≤ wait ≤ 3600)).
Proof.
  intros Hreq naive wait.
  assert (∀ p, predictionOf dt dir cur h = Some p → TrainTime.time p = wait) as Htime.
  { intros p Hp. apply predictionOf_Some in Hp as (_ & _ & ->). done. }
  assert (is_Some (predictionOf dt dir cur h) ↔ 0 ≤ wait ≤ 3600) as Hiff.
  { split.
    - intros [p Hp]. by apply predictionOf_Some in Hp as (_ & ? & _).
    - intros Hw. eexists. apply predictionOf_Some.
      split; [exact Hreq|]. cbv zeta. split; [exact Hw|reflexivity]. }
  split; [done|]. split; [done|].
  intros hd ids id Hid Hh. rewrite <- Hiff. split.
  - intros (p & Hp & _). by exists p.
  - intros [p Hp]. exists p. split; [done|].
    apply elem_of_collectPredictions. by exists id, h.
Qed.

(** The boundary values: a wait of 3600 is kept, a wait of 3601 is not, and
    a departure at second 0 seen from second 86399 waits one second. *)
Lemma C1_wait_time_window_witness :
  let r (departure : Z) :=
    HistoricalTrainTime.mk "A" "1" None departure "" DayType.WEEKDAY in
  is_Some (predictionOf DayType.WEEKDAY None 100 (r 3700)) ∧
  ¬ is_Some (predictionOf DayType.WEEKDAY None 100 (r 3701)) ∧
  (∃ p, predictionOf DayType.WEEKDAY (Some 1) 86399 (r 0) = Some p ∧
        TrainTime.time p = 1).
Proof.
  intros r.
  assert (∀ d, requested DayType.WEEKDAY None (r d)) as Hnone.
  { intros d. split; [reflexivity|]. intros d' [=]. }
  assert (∀ d, requested DayType.WEEKDAY (Some 1) (r d)) as Hone.
  { intros d. split; [reflexivity|]. intros d' [= <-]. reflexivity. }
  split; [|split].
  - apply (C1_wait_time_window DayType.WEEKDAY None 100 (r 3700) (Hnone _)).
    simpl. lia.
  - intros Hs.
    apply (C1_wait_time_window DayType.WEEKDAY None 100 (r 3701) (Hnone _)) in Hs.
    simpl in Hs. lia.
  - destruct (C1_wait_time_window DayType.WEEKDAY (Some 1) 86399 (r 0) (Hone _))
      as (Htime & Hiff & _).
    destruct (proj2 Hiff) as [p Hp]; [simpl; lia|].
    exists p. split; [exact Hp|]. exact (Htime p Hp).
Defined.

(** ** Sorting, ranking and truncation *)

Lemma getPredictions_unfold this stopId direction now :
  getPredictions this stopId direction now
  = take MAX_NUM_PREDICTIONS
      (assignDisplayOrder
         (array_sort byTime (collectedPredictions this stopId direction now))).
Proof.
  unfold getPredictions, collectedPredictions.
  by destruct (historicalData this).
Qed.

Lemma assignDisplayOrder_lookup (l : list TrainTime) (i : nat) :
  assignDisplayOrder l !! i
  = TrainTime.set_display_order (Z.of_nat i) <$> l !! i.
Proof. unfold assignDisplayOrder. by rewrite list_lookup_imap. Qed.

Lemma assignDisplayOrder_length (l : list TrainTime) :
  length (assignDisplayOrder l) = length l.
Proof. apply length_imap. Qed.

Lemma assignDisplayOrder_time (l : list TrainTime) :
  TrainTime.time <$> assignDisplayOrder l = TrainTime.time <$> l.
Proof.
  apply list_eq. intros i.
  rewrite !list_lookup_fmap, assignDisplayOrder_lookup.
  by destruct (l !! i).
Qed.

Lemma StronglySorted_take {A : Type} (R : relation A) (n : nat) (l : list A) :
  StronglySorted R l → StronglySorted R (take n l).
Proof.
  intros Hl. rewrite <- (take_drop n l) in Hl.
  by apply StronglySorted_app_1_l in Hl.
Qed.

Lemma StronglySorted_lookup {A : Type} (R : relation A) (l : list A) i j a b :
  StronglySorted R l → (i < j)%nat → l !! i = Some a → l !! j = Some b → R a b.
Proof.
  intros Hl. revert i j.
  induction Hl as [|x l Hl IH Hx]; intros i j Hij Ha Hb; [done|].
  destruct j as [|j]; [lia|]. simpl in Hb.
  destruct i as [|i]; simpl in Ha.
  - injection Ha as ->. rewrite Forall_forall in Hx.
    apply Hx. by eapply list_elem_of_lookup_2.
  - apply (IH i j); [lia|done..].
Qed.

Lemma predictionOf_display_order dt dir cur h p :
  predictionOf dt dir cur h = Some p → TrainTime.display_order p = 0.
Proof. intros Hp. by apply predictionOf_Some in Hp as (_ & _ & ->). Qed.

Lemma collectedPredictions_display_order this stopId direction now p :
  p ∈ collectedPredictions this stopId direction now →
  TrainTime.display_order p = 0.
Proof.
  unfold collectedPredictions. destruct (historicalData this) as [hd|].
  - intros (id & h & _ & _ & Hp)%elem_of_collectPredictions.
    by eapply predictionOf_display_order.
  - by intros ?%elem_of_nil.
Qed.

Lemma set_display_order_reset (i : Z) (p : TrainTime) :
  TrainTime.display_order p = 0 →
  TrainTime.set_display_order 0 (TrainTime.set_display_order i p) = p.
Proof. destruct p; simpl. by intros ->. Qed.

Lemma StronglySorted_same_keys {A : Type} (key : A → Z) (l1 l2 : list A) :
  key <$> l1 = key <$> l2 →
  StronglySorted (λ a b, key a ≤ key b) l1 →
  StronglySorted (λ a b, key a ≤ key b) l2.
Proof.
  intros Heq Hs. revert l2 Heq.
  induction Hs as [|x l1 Hs IH Hx]; intros [|y l2] Heq; try done.
  - constructor.
  - injection Heq as Hxy Heq. constructor; [by apply IH|].
    apply (Forall_fmap key (λ k, key x ≤ k)) in Hx.
    apply (Forall_fmap key (λ k, key y ≤ k)).
    change (key <$> l1 = key <$> l2) in Heq. by rewrite <- Heq, <- Hxy.
Qed.

Lemma getPredictions_sorted this stopId direction now :
  StronglySorted timeLe (getPredictions this stopId direction now).
Proof.
  rewrite getPredictions_unfold. apply StronglySorted_take.
  eapply (StronglySorted_same_keys TrainTime.time);
    [symmetry; apply assignDisplayOrder_time|].
  apply (array_sort_sorted TrainTime.time).
Qed.

Lemma getPredictions_length this stopId direction now :
  length (getPredictions this stopId direction now)
  = (MAX_NUM_PREDICTIONS `min`
       length (collectedPredictions this stopId direction now))%nat.
Proof.
  rewrite getPredictions_unfold, length_take, assignDisplayOrder_length.
  by rewrite (Permutation_length (array_sort_perm byTime _)).
Qed.

Lemma getPredictions_lookup this stopId direction now (i : nat) p :
  getPredictions this stopId direction now !! i = Some p →
  (i < MAX_NUM_PREDICTIONS)%nat ∧
  TrainTime.display_order p = Z.of_nat i ∧
  array_sort byTime (collectedPredictions this stopId direction now) !! i
  = Some (TrainTime.set_display_order 0 p).
Proof.
  rewrite getPredictions_unfold. intros [Hp Hi]%lookup_take_Some.
  rewrite assignDisplayOrder_lookup in Hp.
  destruct (array_sort byTime _ !! i) as [q|] eqn:Hq; [|done].
  injection Hp as <-. split; [done|]. split; [done|].
  rewrite set_display_order_reset; [done|].
  apply (collectedPredictions_display_order this stopId direction now).
  rewrite <- (array_sort_perm byTime). by eapply list_elem_of_lookup_2.
Qed.

(** C6. The list [getPredictions] returns is the first six entries of the
    collected predictions sorted by ascending wait time, equal waits
    keeping the order in which they were collected; the entry at position
    [i] has [display_order = i], assigned on the whole sorted list before
    it is cut to [MAX_NUM_PREDICTIONS] entries. *)
Theorem C6_sorted_stable_ranked_truncated this stopId direction now :
  let collected := collectedPredictions this stopId direction now in
  let result := getPredictions this stopId direction now in
  ∃ sorted : list TrainTime,
    sorted ≡ₚ collected ∧
    StronglySorted timeLe sorted ∧
    (∀ t, filter (λ p, TrainTime.time p = t) sorted
          = filter (λ p, TrainTime.time p = t) collected) ∧
    result = take MAX_NUM_PREDICTIONS (assignDisplayOrder sorted) ∧
    (∀ (i : nat) p, result !! i = Some p →
       TrainTime.display_order p = Z.of_nat i ∧
       sorted !! i = Some (TrainTime.set_display_order 0 p)) ∧
    (∀ (i j : nat) a b, (i < j)%nat → result !! i = Some a →
       result !! j = Some b → TrainTime.time a ≤ TrainTime.time b) ∧
    (length result ≤ 6)%nat ∧
    length result = (6 `min` length collected)%nat.
Proof.
  intros collected result.
  exists (array_sort byTime collected).
  split; [apply array_sort_perm|].
  split; [apply (array_sort_sorted TrainTime.time)|].
  split; [intros t; apply (array_sort_stable TrainTime.time)|].
  split; [apply getPredictions_unfold|].
  split.
  { intros i p Hp. by apply getPredictions_lookup in Hp as (_ & ? & ?). }
  split.
  { intros i j a b. apply (StronglySorted_lookup timeLe).
    apply getPredictions_sorted. }
  pose proof (getPredictions_length this stopId direction now) as Hlen.
  fold result collected in Hlen. unfold MAX_NUM_PREDICTIONS in Hlen.
  split; [lia|done].
Qed.

(** ** Unknown stops and child stations *)




(** A parent stop with two children whose waits interleave: the nine
    departures within the hour are merged, sorted by wait, numbered, and the
    first six are returned. *)
Example child_station_merge :
  let r (route : string) (departure : Z) :=
    HistoricalTrainTime.mk route "1" None departure "" DayType.WEEKDAY in
  let this :=
    {| historicalData :=
         Some (<["P" := [r "A" 700; r "A" 300]]>
               (<["C1" := [r "B" 300; r "B" 100; r "B" 900; r "B" 5000]]>
               (<["C2" := [r "C" 200; r "C" 300; r "C" 800; r "C" 600]]> ∅)));
       stations := [Station.mk "P" "Parent" "N" "S" [] (Some ["C1"; "C2"])];
       childStationIds := ∅; lastSecondTrain := None |} in
  (λ p, (TrainTime.route_id p, TrainTime.time p, TrainTime.display_order p))
    <$> getPredictions this "P" None (Build_Date 2 0 0 0)
  = [("B", 100, 0); ("C", 200, 1); ("A", 300, 2); ("B", 300, 3);
     ("C", 300, 4); ("C", 600, 5)]%string.
Proof. vm_compute. reflexivity. Qed.

(** ** Express trains *)

Lemma startsWith_spec (s sub : string) :
  startsWith s sub = true ↔ ∃ post, s = sub +:+ post.
Proof.
  revert s. induction sub as [|a sub IH]; intros s; simpl.
  - split; [by exists s|done].
  - destruct s as [|b s]; simpl.
    + split; [done|by intros [post ?]].
    + rewrite andb_true_iff, IH, Ascii.eqb_eq. split.
      * intros [-> [post ->]]. by exists post.
      * intros [post [= -> ->]]. split; [done|by exists post].
Qed.

Lemma includes_spec (s sub : string) :
  includes s sub = true ↔ substring_of sub s.
Proof.
  unfold substring_of. induction s as [|a s IH].
  - simpl. rewrite orb_false_r, startsWith_spec. split.
    + intros [post ->]. by exists "", post.
    + intros ([|b pre] & post & Heq); [by exists post|done].
  - cbn [includes]. rewrite orb_true_iff, IH, startsWith_spec. split.
    + intros [[post ->]|(pre & post & ->)].
      * by exists "", post.
      * by exists (String a pre), post.
    + intros ([|b pre] & post & Heq).
      * left. by exists post.
      * right. injection Heq as -> ->. by exists pre, post.
Qed.

Lemma isExpressTrain_spec (routeId tripId : string) :
  isExpressTrain routeId tripId = true ↔
  (routeId = "4" ∨ routeId = "6") ∧
  (substring_of "_X" tripId ∨ substring_of "EXPRESS" tripId).
Proof.
  unfold isExpressTrain. rewrite <- !includes_spec.
  destruct (String.eqb_spec routeId "4") as [H4|H4];
    destruct (String.eqb_spec routeId "6") as [H6|H6]; simpl;
    rewrite ?orb_true_iff; naive_solver.
Qed.

(** Every returned prediction carries the route, the trip id and the
    express flag of a record of the stop or of one of its children. *)
Lemma getPredictions_origin this stopId direction now p :
  p ∈ getPredictions this stopId direction now →
  ∃ hd id h,
    historicalData this = Some hd ∧
    id ∈ stationIdsToCheck this stopId ∧ h ∈ recordsOf hd id ∧
    TrainTime.trip_id p = HistoricalTrainTime.trip_id h ∧
    TrainTime.route_id p = HistoricalTrainTime.route_id h ∧
    TrainTime.is_express p
    = isExpressTrain (HistoricalTrainTime.route_id h)
                     (HistoricalTrainTime.trip_id h).
Proof.
  intros (i & Hp)%list_elem_of_lookup_1.
  apply getPredictions_lookup in Hp as (_ & _ & Hp).
  apply list_elem_of_lookup_2 in Hp.
  rewrite (array_sort_perm byTime) in Hp.
  unfold collectedPredictions in Hp.
  destruct (historicalData this) as [hd|]; [|by apply elem_of_nil in Hp].
  apply elem_of_collectPredictions in Hp as (id & h & Hid & Hh & Hp).
  exists hd, id, h. split; [done|]. split; [done|]. split; [done|].
  apply predictionOf_Some in Hp as (_ & _ & Hp).
  destruct p; simpl in *. by injection Hp as -> -> -> -> _ -> ->.
Qed.

(** C7. The express flag of a prediction is set exactly when the route of
    its record is "4" or "6" and the trip id of the record contains "_X" or
    "EXPRESS"; the flag survives sorting and numbering.  The single weekday
    record of route "6", direction "0", departure 100 and trip id
    "t1_EXPRESS", seen at second 50 of a weekday, gives exactly one
    prediction: wait 50, position 0, express. *)
Theorem C7_express_flag :
  (∀ routeId tripId,
     isExpressTrain routeId tripId = true ↔
     (routeId = "4" ∨ routeId = "6") ∧
     (substring_of "_X" tripId ∨ substring_of "EXPRESS" tripId)) ∧
  (∀ dt dir cur h p,
     predictionOf dt dir cur h = Some p →
     (TrainTime.is_express p = true ↔
      (HistoricalTrainTime.route_id h = "4" ∨
       HistoricalTrainTime.route_id h = "6") ∧
      (substring_of "_X" (HistoricalTrainTime.trip_id h) ∨
       substring_of "EXPRESS" (HistoricalTrainTime.trip_id h)))) ∧
  (∀ this stopId direction now p,
     p ∈ getPredictions this stopId direction now →
     ∃ hd id h,
       historicalData this = Some hd ∧
       id ∈ stationIdsToCheck this stopId ∧ h ∈ recordsOf hd id ∧
       TrainTime.trip_id p = HistoricalTrainTime.trip_id h ∧
       TrainTime.route_id p = HistoricalTrainTime.route_id h ∧
       TrainTime.is_express p
       = isExpressTrain (HistoricalTrainTime.route_id h)
                        (HistoricalTrainTime.trip_id h)) ∧
  (∀ (stopId : string) (name : option string) (sts : list Station)
     (direction : option Z) (day : Z),
     (direction = None ∨ direction = Some 0) →
     1 ≤ day ≤ 5 →
     (∀ s, s ∈ sts → Station.children s = None) →
     getPredictions
       {| historicalData :=
            Some {[ stopId :=
                      [HistoricalTrainTime.mk "6" "0" name 100 "t1_EXPRESS"
                                              DayType.WEEKDAY] ]};
          stations := sts; childStationIds := ∅; lastSecondTrain := None |}
       stopId direction (Build_Date day 0 0 50)
     = [TrainTime.mk "6" "0" name 50 0 None "t1_EXPRESS" true]).
Proof.
  split; [apply isExpressTrain_spec|].
  split.
  { intros dt dir cur h p Hp. rewrite <- isExpressTrain_spec.
    by apply predictionOf_Some in Hp as (_ & _ & ->). }
  split.
  { intros this stopId direction now p. apply getPredictions_origin. }
  intros stopId name sts direction day Hdir Hday Hsts.
  unfold getPredictions, stationIdsToCheck. cbn [historicalData].
  assert (match getStation {| historicalData := Some {[ stopId :=
                      [HistoricalTrainTime.mk "6" "0" name 100 "t1_EXPRESS"
                                              DayType.WEEKDAY] ]};
          stations := sts; childStationIds := ∅; lastSecondTrain := None |} stopId with
          | Some station => default [] (Station.children station)
          | None => []
          end = []) as ->.
  { unfold getStation. cbn [stations].
    destruct (list_find _ sts) as [[i s]|] eqn:Hfind; [|done]. simpl.
    apply list_find_Some in Hfind as (Hs & _).
    by rewrite (Hsts s) by by eapply list_elem_of_lookup_2. }
  assert (getDayType (Build_Date day 0 0 50) = DayType.WEEKDAY) as ->.
  { unfold getDayType. cbn [getDay].
    destruct (Z.eqb_spec day 0); [lia|]. destruct (Z.eqb_spec day 6); [lia|done]. }
  unfold collectPredictions. simpl. rewrite lookup_singleton_eq.
  by destruct Hdir as [-> | ->].
Qed.

(** The scenario of C7 on the stop "A20", on a Monday, for both
    directions shown and for direction 0. *)
Lemma C7_express_flag_witness :
  let this :=
    {| historicalData :=
         Some {[ "A20"%string :=
                   [HistoricalTrainTime.mk "6" "0" (Some "Pelham Bay Park") 100
                                           "t1_EXPRESS" DayType.WEEKDAY] ]};
       stations := []; childStationIds := ∅; lastSecondTrain := None |} in
  let expected :=
    [TrainTime.mk "6" "0" (Some "Pelham Bay Park") 50 0 None "t1_EXPRESS" true] in
  getPredictions this "A20" None (Build_Date 1 0 0 50) = expected ∧
  getPredictions this "A20" (Some 0) (Build_Date 1 0 0 50) = expected.
Proof.
  destruct C7_express_flag as (_ & _ & _ & Hscenario).
  split.
  - apply (Hscenario "A20"%string (Some "Pelham Bay Park"%string) [] None 1);
      [by left | lia | by intros s ?%elem_of_nil].
  - apply (Hscenario "A20"%string (Some "Pelham Bay Park"%string) [] (Some 0) 1);
      [by right | lia | by intros s ?%elem_of_nil].
Defined.

(** ** Loading *)

Lemma loadData_hist_rejected stationsDoc this :
  loadData Rejected stationsDoc this = (Thrown, this).
Proof. reflexivity. Qed.

Lemma loadData_stations_rejected compressed this :
  loadData (Resolved compressed) Rejected this
  = (Thrown,
     {| historicalData := Some (decompressHistoricalData compressed);
        stations := stations this;
        childStationIds := childStationIds this;
        lastSecondTrain := lastSecondTrain this |}).
Proof. reflexivity. Qed.

Lemma loadData_resolved compressed sts this :
  loadData (Resolved compressed) (Resolved sts) this
  = (Returned tt,
     {| historicalData := Some (decompressHistoricalData compressed);
        stations := sts;
        childStationIds := fold_left addChildren sts ∅;
        lastSecondTrain := lastSecondTrain this |}).
Proof. reflexivity. Qed.

(** The historical data a call of [loadData] leaves is the data it found or
    the decompression of the document it received. *)
Lemma loadData_historicalData histDoc stationsDoc this outcome this' :
  loadData histDoc stationsDoc this = (outcome, this') →
  historicalData this' = historicalData this ∨
  ∃ compressed,
    historicalData this' = Some (decompressHistoricalData compressed).
Proof.
  destruct histDoc as [compressed|].
  - destruct stationsDoc as [sts|].
    + rewrite loadData_resolved. intros [= _ <-]. right. by exists compressed.
    + rewrite loadData_stations_rejected. intros [= _ <-]. right. by exists compressed.
  - rewrite loadData_hist_rejected. intros [= _ <-]. by left.
Qed.

Lemma decompressHistoricalData_trip_id compressed stopId h :
  h ∈ recordsOf (decompressHistoricalData compressed) stopId →
  HistoricalTrainTime.trip_id h = "".
Proof.
  unfold recordsOf, decompressHistoricalData. rewrite lookup_fmap.
  destruct (data compressed !! stopId) as [entries|]; simpl.
  - intros (entry & -> & _)%list_elem_of_fmap.
    by destruct entry as [[[[e0 e1] e2] e3] e4].
  - by intros ?%elem_of_nil.
Qed.

Lemma isExpressTrain_no_trip_id routeId : isExpressTrain routeId "" = false.
Proof. unfold isExpressTrain. by destruct (_ && _). Qed.

(** C10. [decompressHistoricalData] gives every record the empty trip id,
    so no prediction computed from decompressed data is express; this holds
    for every provider left by [loadData], whose only way to the historical
    data is the decompression. *)
Theorem C10_compressed_data_never_express :
  (∀ compressed stopId records h,
     decompressHistoricalData compressed !! stopId = Some records →
     h ∈ records → HistoricalTrainTime.trip_id h = "") ∧
  (∀ this compressed stopId direction now p,
     historicalData this = Some (decompressHistoricalData compressed) →
     p ∈ getPredictions this stopId direction now →
     TrainTime.trip_id p = "" ∧ TrainTime.is_express p = false) ∧
  (∀ histDoc stationsDoc outcome this stopId direction now p,
     loadData histDoc stationsDoc new_MTAProvider = (outcome, this) →
     p ∈ getPredictions this stopId direction now →
     TrainTime.is_express p = false).
Proof.
  assert (∀ this compressed stopId direction now p,
     historicalData this = Some (decompressHistoricalData compressed) →
     p ∈ getPredictions this stopId direction now →
     TrainTime.trip_id p = "" ∧ TrainTime.is_express p = false) as Hexpress.
  { intros this compressed stopId direction now p Hhd Hp.
    apply getPredictions_origin in Hp
      as (hd & id & h & Hhd' & _ & Hh & Htrip & _ & Hexp).
    rewrite Hhd in Hhd'. injection Hhd' as <-.
    apply decompressHistoricalData_trip_id in Hh.
    rewrite Hexp, Htrip, Hh. split; [done|apply isExpressTrain_no_trip_id]. }
  split.
  { intros compressed stopId records h Hrec Hh.
    apply (decompressHistoricalData_trip_id compressed stopId).
    unfold recordsOf. by rewrite Hrec. }
  split; [done|].
  intros histDoc stationsDoc outcome this stopId direction now p Hload Hp.
  apply loadData_historicalData in Hload as [Hhd|[compressed Hhd]].
  - unfold getPredictions in Hp. rewrite Hhd in Hp. by apply elem_of_nil in Hp.
  - by eapply Hexpress.
Qed.

Lemma elem_of_addChildren (ids : gset string) (station : Station) (id : string) :
  id ∈ addChildren ids station ↔
  id ∈ ids ∨ ∃ children, Station.children station = Some children ∧ id ∈ children.
Proof.
  unfold addChildren. destruct (Station.children station) as [children|].
  - transitivity (id ∈ ids ∨ id ∈ children); [|naive_solver].
    revert ids. induction children as [|c children IH]; intros ids; simpl.
    + split; [by left|by intros [?|?%elem_of_nil]].
    + rewrite IH, elem_of_union, elem_of_singleton, elem_of_cons. naive_solver.
  - naive_solver.
Qed.

Lemma elem_of_buildChildStationSet (sts : list Station) (id : string) :
  id ∈ fold_left addChildren sts ∅ ↔
  ∃ parent children,
    parent ∈ sts ∧ Station.children parent = Some children ∧ id ∈ children.
Proof.
  enough (∀ ids : gset string,
    id ∈ fold_left addChildren sts ids ↔
    id ∈ ids ∨ ∃ parent children,
      parent ∈ sts ∧ Station.children parent = Some children ∧ id ∈ children)
    as H.
  { rewrite H. split; [intros [?%not_elem_of_empty|?]|]; by auto. }
  induction sts as [|st sts IH]; intros ids; simpl.
  - split; [by left|]. by intros [?|(? & ? & ?%elem_of_nil & _)].
  - rewrite IH, elem_of_addChildren. split.
    + intros [[?|(ch & ? & ?)]|(parent & ch & ? & ? & ?)].
      * by left.
      * right. exists st, ch. split; [left|done].
      * right. exists parent, ch. split; [by right|done].
    + intros [?|(parent & ch & [->|?]%elem_of_cons & ? & ?)].
      * left. by left.
      * left. right. by exists ch.
      * right. by exists parent, ch.
Qed.

Lemma descendant_listed (sts : list Station) (a c : string) :
  descendant sts a c →
  ∃ parent children,
    parent ∈ sts ∧ Station.children parent = Some children ∧ c ∈ children.
Proof. induction 1; [by eexists _, _|done]. Qed.

(** C4, as the specification states it, fails.  The historical departures are
    parsed and the stations document is then unavailable: [loadData]
    throws, yet the provider holds the new departures beside the stations
    it had.  This is so on the first load (the provider then answers
    [getPredictions] from the new departures, with an empty station list)
    and on a later load (new departures beside the old stations). *)
Lemma C4_partial_load_counterexample :
  let compressed :=
    {| names := ["Far Rockaway"%string];
       data := {[ "A20"%string := [("A", "1", 0, 3600, "w")%string] ]} |} in
  let fresh := new_MTAProvider in
  let failed := loadData (Resolved compressed) Rejected fresh in
  let station := Station.mk "B01" "Old Station" "Uptown" "Downtown" [] None in
  let loaded :=
    snd (loadData (Resolved {| names := []; data := ∅ |}) (Resolved [station])
                  fresh) in
  let reloaded := loadData (Resolved compressed) Rejected loaded in
  (fst failed = Thrown ∧
   historicalData fresh = None ∧
   historicalData (snd failed) = Some (decompressHistoricalData compressed) ∧
   stations (snd failed) = stations fresh ∧
   getPredictions fresh "A20" None (Build_Date 1 0 59 0) = [] ∧
   getPredictions (snd failed) "A20" None (Build_Date 1 0 59 0)
   = [TrainTime.mk "A" "1" (Some "Far Rockaway") 60 0 None "" false]) ∧
  (fst reloaded = Thrown ∧
   historicalData loaded = Some ∅ ∧
   historicalData (snd reloaded) = Some (decompressHistoricalData compressed) ∧
   decompressHistoricalData compressed !! "A20"%string
   = Some [HistoricalTrainTime.mk "A" "1" (Some "Far Rockaway") 3600 ""
                                  DayType.WEEKDAY] ∧
   stations (snd reloaded) = [station] ∧
   stations loaded = [station]).
Proof. repeat split. Qed.

(** C4, amended.  [loadData] assigns field by field and undoes nothing.  A
    failure on the historical-departures document leaves the provider as it
    was.  A failure on the stations document, after the departures were
    parsed, leaves the decompressed departures assigned and the stations
    and the child-id set as they were.  Both tables (and the child-id set)
    are replaced only when both documents are delivered. *)
Theorem C4_load_failure_keeps_earlier_assignment :
  (∀ stationsDoc this,
     loadData Rejected stationsDoc this = (Thrown, this)) ∧
  (∀ compressed this,
     loadData (Resolved compressed) Rejected this
     = (Thrown,
        {| historicalData := Some (decompressHistoricalData compressed);
           stations := stations this;
           childStationIds := childStationIds this;
           lastSecondTrain := lastSecondTrain this |})) ∧
  (∀ compressed sts this,
     loadData (Resolved compressed) (Resolved sts) this
     = (Returned tt,
        {| historicalData := Some (decompressHistoricalData compressed);
           stations := sts;
           childStationIds := fold_left addChildren sts ∅;
           lastSecondTrain := lastSecondTrain this |})).
Proof.
  split; [apply loadData_hist_rejected|].
  split; [apply loadData_stations_rejected|apply loadData_resolved].
Qed.

(** C5, as the specification states it, fails: two stations that list each other as
    children make each its own descendant, and [loadData] returns normally
    with this topology stored as it came. *)
Lemma C5_cycle_accepted_counterexample :
  let a := Station.mk "A" "Alpha" "Uptown" "Downtown" ["1"%string] (Some ["B"%string]) in
  let b := Station.mk "B" "Beta" "Uptown" "Downtown" ["1"%string] (Some ["A"%string]) in
  let compressed := {| names := []; data := ∅ |} in
  let loaded :=
    loadData (Resolved compressed) (Resolved [a; b]) new_MTAProvider in
  descendant [a; b] "A" "A" ∧
  fst loaded = Returned tt ∧
  stations (snd loaded) = [a; b].
Proof.
  intros a b compressed loaded. split; [|done].
  apply (descendant_trans _ "A" "B" "A")%string.
  - apply (descendant_child [a; b] a ["B"%string]); [left|done|left].
  - apply (descendant_child [a; b] b ["A"%string]); [right; left|done|left].
Qed.

(** C5, amended.  A station that is its own descendant is not detected at
    load time: [loadData] validates nothing in the [children] lists.  When
    both documents are delivered it returns normally, stores the stations
    as they came, and puts every listed child id, so also every stop id on
    a cycle, in the child-id set (which hides that station from
    [getStations]). *)
Theorem C5_cycle_is_accepted compressed (sts : list Station) this (s : string) :
  descendant sts s s →
  ∃ this',
    loadData (Resolved compressed) (Resolved sts) this = (Returned tt, this') ∧
    stations this' = sts ∧
    s ∈ childStationIds this' ∧
    ∀ station, station ∈ getStations this' → Station.stop_id station ≠ s.
Proof.
  intros Hcycle. rewrite loadData_resolved. eexists. split; [done|].
  split; [done|]. cbn [childStationIds].
  assert (s ∈ fold_left addChildren sts ∅) as Hs.
  { apply elem_of_buildChildStationSet. by eapply descendant_listed. }
  split; [done|].
  intros station [Hnot _]%list_elem_of_filter Heq. apply Hnot. by rewrite Heq.
Qed.

Lemma C5_cycle_is_accepted_witness :
  let a := Station.mk "A" "Alpha" "Uptown" "Downtown" ["1"%string] (Some ["A"%string]) in
  ∃ this',
    loadData (Resolved {| names := []; data := ∅ |}) (Resolved [a])
             new_MTAProvider = (Returned tt, this') ∧
    stations this' = [a] ∧
    "A"%string ∈ childStationIds this' ∧
    ∀ station, station ∈ getStations this' → Station.stop_id station ≠ "A"%string.
Proof.
  intros a.
  apply (C5_cycle_is_accepted {| names := []; data := ∅ |} [a] new_MTAProvider "A"%string).
  apply (descendant_child [a] a ["A"%string]); [left|reflexivity|left].
Defined.

(** ** The rotation of the second row *)

Lemma getSecondTrain_short (predictions : list TrainTime) this :
  (length predictions < 2)%nat →
  getSecondTrain predictions this = (Returned None, this).
Proof.
  intros Hlen. unfold getSecondTrain.
  by destruct (Nat.ltb_spec (length predictions) 2); [|lia].
Qed.

Lemma getSecondTrain_select (predictions : list TrainTime) this :
  (2 ≤ length predictions)%nat →
  let selected := predictions !! secondIndex predictions (lastSecondTrain this) in
  getSecondTrain predictions this = (Returned selected, remember selected this).
Proof.
  intros Hlen. unfold getSecondTrain, secondIndex.
  destruct (Nat.ltb_spec (length predictions) 2); [lia|].
  unfold mbind, Method_bind, get_lastSecondTrain. simpl.
  destruct (lastSecondTrain this) as [last|]; [|done].
  by destruct (findDisplayOrder _ predictions 0).
Qed.

Lemma findDisplayOrder_bound (order : Z) (predictions : list TrainTime) (i0 i : nat) :
  findDisplayOrder order predictions i0 = Some i →
  (i0 ≤ i < i0 + length predictions)%nat.
Proof.
  revert i0. induction predictions as [|p rest IH]; intros i0; simpl; [done|].
  destruct (TrainTime.display_order p =? order).
  - intros [= <-]. lia.
  - intros Hi%IH. lia.
Qed.

Lemma secondIndex_bound (predictions : list TrainTime) last :
  (2 ≤ length predictions)%nat →
  (1 ≤ secondIndex predictions last < length predictions)%nat.
Proof.
  intros Hlen. unfold secondIndex. destruct last as [last|]; [|lia].
  destruct (findDisplayOrder _ predictions 0) as [i|] eqn:Hfind; [|lia].
  apply findDisplayOrder_bound in Hfind.
  destruct (Nat.leb_spec (length predictions) (i + 1)); lia.
Qed.

Lemma findDisplayOrder_ranked (order : Z) (predictions : list TrainTime) (i0 : nat) :
  (∀ (i : nat) p, predictions !! i = Some p →
                  TrainTime.display_order p = Z.of_nat (i0 + i)) →
  findDisplayOrder order predictions i0
  = if decide (Z.of_nat i0 ≤ order < Z.of_nat (i0 + length predictions))
    then Some (Z.to_nat order) else None.
Proof.
  revert i0. induction predictions as [|p rest IH]; intros i0 Hrank; simpl.
  - case_decide; [lia|done].
  - pose proof (Hrank 0%nat p eq_refl) as Hp.
    destruct (Z.eqb_spec (TrainTime.display_order p) order) as [Heq|Hne].
    + case_decide; [|lia]. f_equal. lia.
    + rewrite IH.
      * repeat case_decide; try done; lia.
      * intros i q Hq. rewrite (Hrank (S i) q Hq). lia.
Qed.

(** On a numbered list the step from the remembered entry is the cyclic
    successor on the indices [1 .. N-1]. *)
Lemma secondIndex_ranked (predictions : list TrainTime) (m : nat) :
  ranked predictions →
  (m + 1 < length predictions)%nat →
  secondIndex predictions (predictions !! (1 + m)%nat)
  = (1 + (m + 1) `mod` (length predictions - 1))%nat.
Proof.
  intros Hrank Hm.
  destruct (predictions !! (1 + m)%nat) as [last|] eqn:Hlast;
    [|apply lookup_ge_None in Hlast; lia].
  unfold secondIndex. rewrite (findDisplayOrder_ranked _ _ 0); [|exact Hrank].
  rewrite (Hrank _ _ Hlast). case_decide; [|lia].
  rewrite Nat2Z.id.
  destruct (Nat.leb_spec (length predictions) (1 + m + 1)).
  - replace (m + 1)%nat with (length predictions - 1)%nat by lia.
    rewrite Nat.Div0.mod_same. lia.
  - rewrite Nat.mod_small; lia.
Qed.

Lemma repeatSecondTrain_S (n : nat) (predictions : list TrainTime) this :
  repeatSecondTrain (S n) predictions this
  = match getSecondTrain predictions this with
    | (Returned r, this1) =>
        match repeatSecondTrain n predictions this1 with
        | (Returned rs, this2) => (Returned (r :: rs), this2)
        | (Thrown, this2) => (Thrown, this2)
        end
    | (Thrown, this1) => (Thrown, this1)
    end.
Proof. reflexivity. Qed.

(** From a provider that remembers the entry at index [1 + m], the calls
    walk the cycle from the position after [m]. *)
Lemma repeatSecondTrain_from (predictions : list TrainTime) (n m : nat) this :
  (2 ≤ length predictions)%nat →
  ranked predictions →
  (m < length predictions - 1)%nat →
  lastSecondTrain this = predictions !! (1 + m)%nat →
  ∃ rs this',
    repeatSecondTrain n predictions this = (Returned rs, this') ∧
    length rs = n ∧
    ∀ k, (k < n)%nat →
         rs !! k
         = Some (predictions !! (1 + (m + 1 + k) `mod` (length predictions - 1))%nat).
Proof.
  intros Hlen Hrank. revert m this.
  induction n as [|n IH]; intros m this Hm Hlast.
  - eexists [], this. repeat split. intros k ?. lia.
  - rewrite repeatSecondTrain_S, getSecondTrain_select by done. cbv zeta.
    rewrite Hlast, secondIndex_ranked by (done || lia).
    set (d := (length predictions - 1)%nat).
    destruct (IH ((m + 1) `mod` d)%nat
                 (remember (predictions !! (1 + (m + 1) `mod` d)%nat) this))
      as (rs & this' & -> & Hrs & Hk).
    { apply Nat.mod_upper_bound. lia. }
    { done. }
    eexists _, this'. split; [done|]. split; [simpl; lia|].
    intros [|k] Hlt; simpl.
    + by rewrite Nat.add_0_r.
    + rewrite Hk by lia. do 3 f_equal.
      rewrite <- Nat.add_assoc, Nat.Div0.add_mod_idemp_l. f_equal; lia.
Qed.

(** C8. On a list of fewer than two predictions [getSecondTrain] returns
    [null] and leaves the provider, and with it the remembered entry, as it
    was. *)
Theorem C8_short_list_keeps_rotation_state (predictions : list TrainTime) this :
  (length predictions < 2)%nat →
  getSecondTrain predictions this = (Returned None, this) ∧
  lastSecondTrain (snd (getSecondTrain predictions this)) = lastSecondTrain this.
Proof.
  intros Hlen. by rewrite getSecondTrain_short.
Qed.

Lemma C8_short_list_keeps_rotation_state_witness :
  let p := TrainTime.mk "A" "1" (Some "Inwood") 120 0 None "" false in
  let q := TrainTime.mk "C" "1" (Some "168 St") 300 3 None "" false in
  let this := remember (Some q) new_MTAProvider in
  (getSecondTrain [] this = (Returned None, this) ∧
   lastSecondTrain (snd (getSecondTrain [] this)) = Some q) ∧
  (getSecondTrain [p] this = (Returned None, this) ∧
   lastSecondTrain (snd (getSecondTrain [p] this)) = Some q) ∧
  (getSecondTrain [] new_MTAProvider = (Returned None, new_MTAProvider) ∧
   lastSecondTrain (snd (getSecondTrain [] new_MTAProvider)) = None).
Proof.
  intros p q this. split; [|split].
  - apply (C8_short_list_keeps_rotation_state [] this). simpl. lia.
  - apply (C8_short_list_keeps_rotation_state [p] this). simpl. lia.
  - apply (C8_short_list_keeps_rotation_state [] new_MTAProvider). simpl. lia.
Defined.

(** C3. On a numbered list of at least two predictions, whatever the
    provider remembers (nothing, an entry whose position is in the list, or
    one whose position is not), [getSecondTrain] returns an entry at an
    index of at least 1, so never the entry with [display_order = 0]. *)
Theorem C3_second_train_never_rank_zero (predictions : list TrainTime) this :
  (2 ≤ length predictions)%nat →
  ranked predictions →
  ∃ (i : nat) p,
    getSecondTrain predictions this
    = (Returned (Some p), remember (Some p) this) ∧
    predictions !! i = Some p ∧
    (1 ≤ i < length predictions)%nat ∧
    TrainTime.display_order p = Z.of_nat i ∧
    TrainTime.display_order p ≠ 0.
Proof.
  intros Hlen Hrank.
  pose proof (secondIndex_bound predictions (lastSecondTrain this) Hlen) as Hi.
  destruct (lookup_lt_is_Some_2 predictions
              (secondIndex predictions (lastSecondTrain this))) as [p Hp]; [lia|].
  exists (secondIndex predictions (lastSecondTrain this)), p.
  rewrite getSecondTrain_select by done. cbv zeta. rewrite Hp.
  split; [done|]. split; [done|]. split; [done|].
  rewrite (Hrank _ _ Hp). split; [done|lia].
Qed.

(** The three kinds of rotation state on a list of three: nothing
    remembered, a remembered position of the list (0, 1, and 2, which wraps),
    and a remembered position that the list does not have. *)
Lemma C3_second_train_never_rank_zero_witness :
  let t (order : Z) := TrainTime.mk "A" "1" None (order * 60) order None "" false in
  let predictions := [t 0; t 1; t 2] in
  let never_first last :=
    ∃ (i : nat) p,
      getSecondTrain predictions (remember last new_MTAProvider)
      = (Returned (Some p), remember (Some p) (remember last new_MTAProvider)) ∧
      predictions !! i = Some p ∧
      (1 ≤ i < length predictions)%nat ∧
      TrainTime.display_order p = Z.of_nat i ∧
      TrainTime.display_order p ≠ 0 in
  never_first None ∧ never_first (Some (t 0)) ∧ never_first (Some (t 1)) ∧
  never_first (Some (t 2)) ∧ never_first (Some (t 5)).
Proof.
  intros t predictions never_first.
  assert (2 ≤ length predictions)%nat as Hlen by (simpl; lia).
  assert (ranked predictions) as Hrank.
  { intros [|[|[|i]]] p; simpl; intros [= <-]; reflexivity. }
  repeat split;
    apply (C3_second_train_never_rank_zero predictions _ Hlen Hrank).
Defined.

(** C2. Repeated calls of [getSecondTrain] on one numbered list of [N >= 2]
    predictions return the entries at the indices
    [1 + (start + k) mod (N - 1)] for [k = 0, 1, 2, ...]: the positions
    1, 2, ..., N-1 in turn and then 1 again.  A provider that remembers
    nothing starts the walk at position 1, so that the calls [c * (N - 1)]
    to [c * (N - 1) + N - 2] of every cycle [c] return the positions
    1 to N-1, each once and in this order. *)
Theorem C2_rotation_cycle (predictions : list TrainTime) this (n : nat) :
  (2 ≤ length predictions)%nat →
  ranked predictions →
  let d := (length predictions - 1)%nat in
  ∃ (start : nat) rs this',
    (start < d)%nat ∧
    (lastSecondTrain this = None → start = 0%nat) ∧
    repeatSecondTrain n predictions this = (Returned rs, this') ∧
    length rs = n ∧
    (∀ k, (k < n)%nat →
       ∃ p, rs !! k = Some (Some p) ∧
            predictions !! (1 + (start + k) `mod` d)%nat = Some p ∧
            TrainTime.display_order p = Z.of_nat (1 + (start + k) `mod` d)) ∧
    (lastSecondTrain this = None →
     ∀ c j, (j < d)%nat → (c * d + j < n)%nat →
       ∃ p, rs !! (c * d + j)%nat = Some (Some p) ∧
            TrainTime.display_order p = Z.of_nat (1 + j)).
Proof.
  intros Hlen Hrank d.
  assert (∃ (start : nat) rs this',
    (start < d)%nat ∧
    (lastSecondTrain this = None → start = 0%nat) ∧
    repeatSecondTrain n predictions this = (Returned rs, this') ∧
    length rs = n ∧
    (∀ k, (k < n)%nat →
       rs !! k = Some (predictions !! (1 + (start + k) `mod` d)%nat)))
    as (start & rs & this' & Hstart & Hfresh & Hrun & Hrs & Hk).
  { destruct n as [|n].
    - exists 0%nat, [], this. repeat split; [lia|]. intros k ?. lia.
    - pose proof (secondIndex_bound predictions (lastSecondTrain this) Hlen) as Hi.
      set (j0 := secondIndex predictions (lastSecondTrain this)) in *.
      destruct (repeatSecondTrain_from predictions n (j0 - 1)
                  (remember (predictions !! j0) this) Hlen Hrank)
        as (rs & this' & Hrun & Hrs & Hk).
      { lia. }
      { simpl. f_equal. lia. }
      exists (j0 - 1)%nat, (predictions !! j0 :: rs), this'.
      split; [lia|]. split.
      { intros Hnone. unfold j0. rewrite Hnone. done. }
      split.
      { rewrite repeatSecondTrain_S, getSecondTrain_select by done. cbv zeta.
        fold j0. by rewrite Hrun. }
      split; [simpl; lia|].
      intros [|k] Hlt; simpl.
      + do 2 f_equal. rewrite Nat.add_0_r, Nat.mod_small; lia.
      + rewrite Hk by lia. do 3 f_equal. f_equal. lia. }
  assert (∀ k, (k < n)%nat →
       ∃ p, rs !! k = Some (Some p) ∧
            predictions !! (1 + (start + k) `mod` d)%nat = Some p ∧
            TrainTime.display_order p = Z.of_nat (1 + (start + k) `mod` d))
    as Hentries.
  { intros k Hlt.
    destruct (lookup_lt_is_Some_2 predictions (1 + (start + k) `mod` d)%nat)
      as [p Hp].
    { pose proof (Nat.mod_upper_bound (start + k) d). lia. }
    exists p. rewrite Hk, Hp by done. split; [done|]. split; [done|].
    by apply Hrank. }
  exists start, rs, this'.
  split; [done|]. split; [done|]. split; [done|]. split; [done|].
  split; [done|].
  intros Hnone c j Hj Hlt.
  destruct (Hentries (c * d + j)%nat Hlt) as (p & Hp & _ & Hord).
  exists p. split; [done|]. rewrite Hord, (Hfresh Hnone). simpl.
  rewrite Nat.add_comm, Nat.Div0.mod_add, Nat.mod_small by lia. done.
Qed.

(** Seven refreshes over four predictions, from a provider that remembers
    nothing. *)
Lemma C2_rotation_cycle_witness :
  let t (order : Z) := TrainTime.mk "A" "1" None (order * 60) order None "" false in
  let predictions := [t 0; t 1; t 2; t 3] in
  ∃ (start : nat) rs this',
    (start < 3)%nat ∧
    (lastSecondTrain new_MTAProvider = None → start = 0%nat) ∧
    repeatSecondTrain 7 predictions new_MTAProvider = (Returned rs, this') ∧
    length rs = 7%nat ∧
    (∀ k, (k < 7)%nat →
       ∃ p, rs !! k = Some (Some p) ∧
            predictions !! (1 + (start + k) `mod` 3)%nat = Some p ∧
            TrainTime.display_order p = Z.of_nat (1 + (start + k) `mod` 3)) ∧
    (lastSecondTrain new_MTAProvider = None →
     ∀ c j, (j < 3)%nat → (c * 3 + j < 7)%nat →
       ∃ p, rs !! (c * 3 + j)%nat = Some (Some p) ∧
            TrainTime.display_order p = Z.of_nat (1 + j)).
Proof.
  intros t predictions.
  apply (C2_rotation_cycle predictions new_MTAProvider 7).
  - simpl. lia.
  - intros [|[|[|[|i]]]] p; simpl; intros [= <-]; reflexivity.
Defined.

(** The same seven refreshes, evaluated: positions 1, 2, 3, 1, 2, 3, 1. *)
Example seven_refreshes :
  let t (order : Z) := TrainTime.mk "A" "1" None (order * 60) order None "" false in
  fst (repeatSecondTrain 7 [t 0; t 1; t 2; t 3] new_MTAProvider)
  = Returned (Some <$> [t 1; t 2; t 3; t 1; t 2; t 3; t 1]).
Proof. reflexivity. Qed.

(** * Further properties of the provider *)

(** ** Station listing and lookup *)

(** X1. After a load that succeeds, whatever the provider held before,
    [getStations] lists exactly the loaded stations that no loaded station
    names as a child, in the order of the stations document. *)
Theorem getStations_after_load compressed (sts : list Station) this :
  let loaded := snd (loadData (Resolved compressed) (Resolved sts) this) in
  (∀ station,
     station ∈ getStations loaded ↔
     station ∈ sts ∧ ¬ listedChild sts (Station.stop_id station)) ∧
  getStations loaded `sublist_of` sts ∧
  (∀ id, id ∈ childStationIds loaded ↔ listedChild sts id).
Proof.
  intros loaded. unfold loaded. rewrite loadData_resolved.
  unfold getStations. cbn [snd stations childStationIds].
  split; [|split].
  - intros station. rewrite list_elem_of_filter, elem_of_buildChildStationSet.
    unfold listedChild. tauto.
  - apply sublist_filter.
  - intros id. apply elem_of_buildChildStationSet.
Qed.

(** X2. [getStation] answers with a station exactly when some station has
    the requested id; the answer has that id and is the first such station
    of the list, whether or not [getStations] hides it. *)
Theorem getStation_first_match this (stopId : string) :
  (is_Some (getStation this stopId) ↔
   ∃ s, s ∈ stations this ∧ Station.stop_id s = stopId) ∧
  (∀ station,
     getStation this stopId = Some station →
     Station.stop_id station = stopId ∧
     ∃ i : nat,
       stations this !! i = Some station ∧
       ∀ (j : nat) s, (j < i)%nat → stations this !! j = Some s →
                      Station.stop_id s ≠ stopId).
Proof.
  unfold getStation. split.
  - rewrite fmap_is_Some. split.
    + intros [[i s] (Hs & Hid & _)%list_find_Some]. exists s.
      split; [by eapply list_elem_of_lookup_2|done].
    + intros (s & Hs & Hid).
      destruct (list_find_elem_of (λ s, Station.stop_id s = stopId)
                  (stations this) s Hs Hid) as [[i s'] Hfind].
      by exists (i, s').
  - intros station Hfind.
    destruct (list_find _ (stations this)) as [[i s]|] eqn:Hf; [|done].
    injection Hfind as ->. apply list_find_Some in Hf as (Hs & Hid & Hfirst).
    split; [done|]. exists i. split; [done|].
    intros j s' Hj Hs'. by apply (Hfirst j s').
Qed.

(** ** Decompression *)



(** X4. The name of a decompressed record is defined exactly when the
    row's name index lies within the name table, and is then the entry at
    that index; an index in front of or behind the table gives a record
    without a name, not an error. *)
Theorem decompress_name_bounds (names : list string) (entry : CompressedEntry) :
  let index := entry.1.1.2 in
  let h := decompressEntry names entry in
  (0 ≤ index < Z.of_nat (length names) ↔
   is_Some (HistoricalTrainTime.long_name h)) ∧
  (∀ name, HistoricalTrainTime.long_name h = Some name ↔
           0 ≤ index ∧ names !! Z.to_nat index = Some name) ∧
  (index < 0 ∨ Z.of_nat (length names) ≤ index →
   HistoricalTrainTime.long_name h = None).
Proof.
  destruct entry as [[[[e0 e1] e2] e3] e4]. simpl. unfold array_get.
  destruct (Z.ltb_spec e2 0) as [Hneg|Hpos].
  - split; [|split].
    + split; [lia|by intros [? ?]].
    + intros name. split; [done|lia].
    + done.
  - split; [|split].
    + rewrite lookup_lt_is_Some. lia.
    + intros name. tauto.
    + intros [?|Hge]; [lia|]. apply lookup_ge_None. lia.
Qed.



(** ** The clock *)

(** X6. For a clock reading within the getters' ranges the seconds since
    midnight lie in [0, 86399] and determine the reading: hours, minutes
    and seconds are recovered by division; and the day type is one of the
    three day types. *)
Theorem seconds_from_midnight_range (now : Date) :
  validClock now →
  let s := getSecondsFromMidnight now in
  0 ≤ s ≤ 86399 ∧
  getHours now = s / 3600 ∧
  getMinutes now = (s `mod` 3600) / 60 ∧
  getSeconds now = s `mod` 60 ∧
  (getDayType now = DayType.SUNDAY ∧ getDay now = 0 ∨
   getDayType now = DayType.SATURDAY ∧ getDay now = 6 ∨
   getDayType now = DayType.WEEKDAY ∧ 1 ≤ getDay now ≤ 5).
Proof.
  intros (Hd & Hh & Hm & Hs). unfold getSecondsFromMidnight, getDayType. cbv zeta.
  split; [lia|].
  split; [apply (Z.div_unique _ _ _ (getMinutes now * 60 + getSeconds now)); lia|].
  assert ((getHours now * 3600 + getMinutes now * 60 + getSeconds now) `mod` 3600
          = getMinutes now * 60 + getSeconds now) as ->.
  { symmetry. apply (Z.mod_unique _ _ (getHours now)); lia. }
  split; [apply (Z.div_unique _ _ _ (getSeconds now)); lia|].
  split.
  { apply (Z.mod_unique _ _ (getHours now * 60 + getMinutes now)); lia. }
  destruct (Z.eqb_spec (getDay now) 0); [by left|].
  destruct (Z.eqb_spec (getDay now) 6); [right; by left|].
  right; right. split; [done|lia].
Qed.

Lemma seconds_from_midnight_range_witness :
  let now := Build_Date 6 23 59 59 in
  let s := getSecondsFromMidnight now in
  0 ≤ s ≤ 86399 ∧
  getHours now = s / 3600 ∧
  getMinutes now = (s `mod` 3600) / 60 ∧
  getSeconds now = s `mod` 60 ∧
  (getDayType now = DayType.SUNDAY ∧ getDay now = 0 ∨
   getDayType now = DayType.SATURDAY ∧ getDay now = 6 ∨
   getDayType now = DayType.WEEKDAY ∧ 1 ≤ getDay now ≤ 5).
Proof.
  apply (seconds_from_midnight_range (Build_Date 6 23 59 59)).
  unfold validClock. simpl. lia.
Defined.

(** ** Wait times of well-formed data *)

(** X7. When the departure time of a record and the current second both
    lie in [0, 86399], the adjusted wait is the difference modulo 86400 and
    lies in [0, 86399]: the second test of the loop (a wait still negative
    after the adjustment) never rejects a record, and a record that passes
    the day and direction filters is dropped exactly when its wait exceeds
    3600. *)
Theorem wait_of_well_formed_record dt dir cur (h : HistoricalTrainTime) :
  0 ≤ HistoricalTrainTime.departure_time h ≤ 86399 →
  0 ≤ cur ≤ 86399 →
  requested dt dir h →
  let wait := (HistoricalTrainTime.departure_time h - cur) `mod` 86400 in
  0 ≤ wait ≤ 86399 ∧
  (predictionOf dt dir cur h = None ↔ 3600 < wait) ∧
  (∀ p, predictionOf dt dir cur h = Some p → TrainTime.time p = wait).
Proof.
  intros Hdep Hcur Hreq wait.
  assert (0 ≤ wait < 86400) as Hbound by (apply Z.mod_pos_bound; lia).
  set (naive := HistoricalTrainTime.departure_time h - cur).
  assert (wait = if decide (naive < 0) then naive + 86400 else naive) as Hwait.
  { unfold wait. fold naive. case_decide.
    - symmetry. apply (Z.mod_unique _ _ (-1)); lia.
    - symmetry. apply (Z.mod_unique _ _ 0); lia. }
  split; [lia|].
  split.
  - split.
    + intros Hnone. destruct (decide (3600 < wait)) as [|Hle]; [done|].
      assert (is_Some (predictionOf dt dir cur h)) as [p Hp]; [|congruence].
      eexists. apply predictionOf_Some. split; [done|]. cbv zeta. fold naive.
      rewrite <- Hwait. split; [lia|done].
    + intros Hgt. destruct (predictionOf dt dir cur h) as [p|] eqn:Hp; [|done].
      apply predictionOf_Some in Hp as (_ & Hw & _). fold naive in Hw.
      rewrite <- Hwait in Hw. lia.
  - intros p Hp. apply predictionOf_Some in Hp as (_ & _ & ->). simpl.
    fold naive. by rewrite <- Hwait.
Qed.

Lemma wait_of_well_formed_record_witness :
  let h := HistoricalTrainTime.mk "A" "1" None 600 "" DayType.SUNDAY in
  let wait := (600 - 85800) `mod` 86400 in
  0 ≤ wait ≤ 86399 ∧
  (predictionOf DayType.SUNDAY (Some 1) 85800 h = None ↔ 3600 < wait) ∧
  (∀ p, predictionOf DayType.SUNDAY (Some 1) 85800 h = Some p →
        TrainTime.time p = wait).
Proof.
  apply (wait_of_well_formed_record DayType.SUNDAY (Some 1) 85800
           (HistoricalTrainTime.mk "A" "1" None 600 "" DayType.SUNDAY)).
  - simpl. lia.
  - lia.
  - split; [reflexivity|]. intros d [= <-]. reflexivity.
Defined.

(** ** The returned list *)

Lemma predictionOf_fields dt dir cur h p :
  predictionOf dt dir cur h = Some p →
  0 ≤ TrainTime.time p ≤ 3600 ∧
  TrainTime.direction_id p = HistoricalTrainTime.direction_id h ∧
  TrainTime.long_name p = HistoricalTrainTime.long_name h ∧
  TrainTime.stop_headsign p = None.
Proof. intros Hp. by apply predictionOf_Some in Hp as (_ & Hw & ->). Qed.

(** X8. Every prediction [getPredictions] returns waits between 0 and 3600
    seconds, has a display position from 0 to 5, no head sign, and, when a
    direction was asked for, the direction id that is the decimal string of
    that direction. *)
Theorem returned_predictions_in_range this stopId direction now :
  Forall
    (λ p, 0 ≤ TrainTime.time p ≤ 3600 ∧
          0 ≤ TrainTime.display_order p ≤ 5 ∧
          TrainTime.stop_headsign p = None ∧
          ∀ d, direction = Some d → TrainTime.direction_id p = toString d)
    (getPredictions this stopId direction now).
Proof.
  apply Forall_forall. intros p (i & Hp)%list_elem_of_lookup_1.
  apply getPredictions_lookup in Hp as (Hi & Hord & Hp).
  apply list_elem_of_lookup_2 in Hp. rewrite (array_sort_perm byTime) in Hp.
  unfold collectedPredictions in Hp.
  destruct (historicalData this) as [hd|]; [|by apply elem_of_nil in Hp].
  apply elem_of_collectPredictions in Hp as (id & h & _ & _ & Hp).
  pose proof (predictionOf_fields _ _ _ _ _ Hp) as (Ht & Hdir & _ & Hsign).
  apply predictionOf_Some in Hp as ((_ & Hreq) & _).
  destruct p; simpl in *. unfold MAX_NUM_PREDICTIONS in Hi.
  split; [done|]. split; [lia|]. split; [done|].
  intros d Hd. rewrite Hdir. by apply Hreq.
Qed.

(** X9. The cut to six entries keeps the soonest trains: apart from the
    display positions, the collected predictions are the returned ones
    together with dropped ones, and no dropped prediction waits less than a
    returned one.  In particular the first returned prediction has the
    least wait of all, and the result is empty only when nothing was
    collected. *)
Theorem returned_predictions_are_soonest this stopId direction now :
  let collected := collectedPredictions this stopId direction now in
  let result := getPredictions this stopId direction now in
  (∃ dropped,
     collected ≡ₚ (TrainTime.set_display_order 0 <$> result) ++ dropped ∧
     ∀ p q, p ∈ result → q ∈ dropped → TrainTime.time p ≤ TrainTime.time q) ∧
  (∀ p q, result !! 0%nat = Some p → q ∈ collected →
          TrainTime.time p ≤ TrainTime.time q) ∧
  (result = [] ↔ collected = []).
Proof.
  intros collected result.
  set (sorted := array_sort byTime collected).
  assert (TrainTime.set_display_order 0 <$> result = take MAX_NUM_PREDICTIONS sorted)
    as Hkept.
  { apply list_eq. intros i. rewrite list_lookup_fmap.
    destruct (result !! i) as [p|] eqn:Hp; simpl.
    - apply getPredictions_lookup in Hp as (Hi & _ & Hp).
      by rewrite lookup_take_lt.
    - symmetry. unfold result in Hp. rewrite getPredictions_unfold in Hp.
      fold collected sorted in Hp.
      destruct (decide (i < MAX_NUM_PREDICTIONS)%nat) as [Hi|Hi].
      + rewrite lookup_take_lt in Hp |- * by done.
        rewrite assignDisplayOrder_lookup in Hp.
        by destruct (sorted !! i).
      + apply lookup_take_ge. lia. }
  assert (∀ p, p ∈ result →
            ∃ i : nat, (i < MAX_NUM_PREDICTIONS)%nat ∧
              sorted !! i = Some (TrainTime.set_display_order 0 p)) as Hin.
  { intros p (i & Hp)%list_elem_of_lookup_1.
    apply getPredictions_lookup in Hp as (Hi & _ & Hp). by exists i. }
  pose proof (array_sort_sorted TrainTime.time collected) as Hsorted.
  fold byTime sorted in Hsorted.
  split; [|split].
  - exists (drop MAX_NUM_PREDICTIONS sorted). split.
    + rewrite Hkept, take_drop. unfold sorted.
      by rewrite (array_sort_perm byTime).
    + intros p q (i & Hi & Hp)%Hin (j & Hq)%list_elem_of_lookup_1.
      rewrite lookup_drop in Hq.
      apply (StronglySorted_lookup _ sorted i (MAX_NUM_PREDICTIONS + j) _ q Hsorted)
        in Hp; [|lia|done].
      by destruct p.
  - intros p q Hp Hq.
    rewrite <- (array_sort_perm byTime collected) in Hq. fold sorted in Hq.
    apply list_elem_of_lookup_1 in Hq as [k Hq].
    apply getPredictions_lookup in Hp as (_ & _ & Hp). fold collected sorted in Hp.
    destruct k as [|k].
    + rewrite Hp in Hq. injection Hq as <-. by destruct p.
    + apply (StronglySorted_lookup _ sorted 0 (S k) _ q Hsorted) in Hp;
        [|lia|done].
      by destruct p.
  - pose proof (getPredictions_length this stopId direction now) as Hlen.
    fold result collected in Hlen. unfold MAX_NUM_PREDICTIONS in Hlen.
    split; intros Hnil.
    + rewrite Hnil in Hlen. simpl in Hlen.
      destruct collected; [done|simpl in Hlen; lia].
    + rewrite Hnil in Hlen. simpl in Hlen. by destruct result.
Qed.


(** ** Asking for one direction *)

Lemma predictionOf_one_direction dt (d : Z) cur h :
  predictionOf dt (Some d) cur h
  = if decide (HistoricalTrainTime.direction_id h = toString d)
    then predictionOf dt None cur h else None.
Proof.
  unfold predictionOf.
  destruct (negb (String.eqb (HistoricalTrainTime.day_type h) dt));
    [by case_decide|].
  destruct (String.eqb_spec (HistoricalTrainTime.direction_id h) (toString d));
    by case_decide.
Qed.

Lemma omap_predictionOf_one_direction dt (d : Z) cur
    (records : list HistoricalTrainTime) :
  omap (predictionOf dt (Some d) cur) records
  = filter (λ p, TrainTime.direction_id p = toString d)
           (omap (predictionOf dt None cur) records).
Proof.
  induction records as [|h records IH]; [done|]. csimpl.
  rewrite predictionOf_one_direction, IH.
  destruct (predictionOf dt None cur h) as [p|] eqn:Hp.
  - apply predictionOf_fields in Hp as (_ & Hdir & _).
    rewrite filter_cons, Hdir. by case_decide.
  - by case_decide.
Qed.

Lemma filter_bind {A B : Type} (P : B → Prop) `{!∀ x, Decision (P x)}
    (f : A → list B) (l : list A) :
  filter P (l ≫= f) = l ≫= (λ x, filter P (f x)).
Proof.
  induction l as [|x l IH]; [done|]. csimpl. by rewrite filter_app, IH.
Qed.

Lemma StronglySorted_filter {A : Type} (R : relation A) (P : A → Prop)
    `{!∀ x, Decision (P x)} (l : list A) :
  StronglySorted R l → StronglySorted R (filter P l).
Proof.
  induction 1 as [|x l Hl IH Hx]; [constructor|].
  rewrite filter_cons. case_decide; [|done].
  constructor; [done|].
  apply Forall_forall. intros y [_ Hy]%list_elem_of_filter.
  rewrite Forall_forall in Hx. by apply Hx.
Qed.

Lemma filter_filter_comm {A : Type} (P Q : A → Prop)
    `{!∀ x, Decision (P x)} `{!∀ x, Decision (Q x)} (l : list A) :
  filter P (filter Q l) = filter Q (filter P l).
Proof.
  induction l as [|x l IH]; [done|].
  rewrite (filter_cons Q), (filter_cons P).
  destruct (decide (Q x)), (decide (P x));
    rewrite ?filter_cons_True, ?filter_cons_False by done; by rewrite IH.
Qed.

(** A stable sort commutes with the selection of a sublist. *)
Lemma array_sort_filter {A : Type} (key : A → Z) (P : A → Prop)
    `{!∀ x, Decision (P x)} (l : list A) :
  array_sort (λ a b, key a - key b) (filter P l)
  = filter P (array_sort (λ a b, key a - key b) l).
Proof.
  symmetry. apply array_sort_canonical.
  - apply StronglySorted_filter, array_sort_sorted.
  - intros t. rewrite filter_filter_comm, (array_sort_stable key).
    apply filter_filter_comm.
Qed.

Lemma getPredictions_erase_order this stopId direction now :
  TrainTime.set_display_order 0 <$> getPredictions this stopId direction now
  = take MAX_NUM_PREDICTIONS
      (array_sort byTime (collectedPredictions this stopId direction now)).
Proof.
  apply list_eq. intros i. rewrite list_lookup_fmap.
  destruct (getPredictions this stopId direction now !! i) as [p|] eqn:Hp; simpl.
  - apply getPredictions_lookup in Hp as (Hi & _ & Hp).
    by rewrite lookup_take_lt.
  - symmetry. rewrite getPredictions_unfold in Hp.
    destruct (decide (i < MAX_NUM_PREDICTIONS)%nat) as [Hi|Hi].
    + rewrite lookup_take_lt in Hp |- * by done.
      rewrite assignDisplayOrder_lookup in Hp.
      by destruct (array_sort byTime _ !! i).
    + apply lookup_take_ge. lia.
Qed.

(** X10. Asking for one direction selects from what is collected for both
    directions: the predictions collected, and likewise the sorted ones,
    for direction [d] are those for no direction whose direction id is the
    decimal string of [d], in the same order; the returned list is, apart
    from the display positions, the first six of them. *)
Theorem one_direction_selects this stopId (d : Z) now :
  let ofDirection := λ p, TrainTime.direction_id p = toString d in
  collectedPredictions this stopId (Some d) now
  = filter ofDirection (collectedPredictions this stopId None now) ∧
  array_sort byTime (collectedPredictions this stopId (Some d) now)
  = filter ofDirection
           (array_sort byTime (collectedPredictions this stopId None now)) ∧
  TrainTime.set_display_order 0 <$> getPredictions this stopId (Some d) now
  = take MAX_NUM_PREDICTIONS
      (filter ofDirection
              (array_sort byTime (collectedPredictions this stopId None now))).
Proof.
  intros ofDirection.
  assert (collectedPredictions this stopId (Some d) now
          = filter ofDirection (collectedPredictions this stopId None now)) as Hc.
  { unfold collectedPredictions. destruct (historicalData this) as [hd|]; [|done].
    rewrite !collectPredictions_bind, filter_bind.
    apply list_bind_ext; [|done]. intros id.
    apply omap_predictionOf_one_direction. }
  assert (array_sort byTime (collectedPredictions this stopId (Some d) now)
          = filter ofDirection
              (array_sort byTime (collectedPredictions this stopId None now)))
    as Hs.
  { rewrite Hc. apply (array_sort_filter TrainTime.time). }
  split; [done|]. split; [done|].
  by rewrite getPredictions_erase_order, Hs.
Qed.

(** ** The rotation with any remembered entry *)

(** X11. On a numbered list of [N >= 2] predictions, a provider that
    remembers an entry with display position [r] (of this list or of an
    earlier one) returns the entry at position [r + 1] when [0 <= r < N - 1]
    and the entry at position 1 otherwise, that is after the last position
    and for a position the list does not have; it then remembers the entry
    it returned. *)
Theorem second_train_transition (predictions : list TrainTime) this last :
  (2 ≤ length predictions)%nat →
  ranked predictions →
  lastSecondTrain this = Some last →
  let r := TrainTime.display_order last in
  let next := if decide (0 ≤ r < Z.of_nat (length predictions) - 1)
              then r + 1 else 1 in
  ∃ p, getSecondTrain predictions this
       = (Returned (Some p), remember (Some p) this) ∧
       predictions !! Z.to_nat next = Some p ∧
       TrainTime.display_order p = next.
Proof.
  intros Hlen Hrank Hlast r next.
  assert (secondIndex predictions (Some last) = Z.to_nat next) as Hindex.
  { unfold secondIndex. rewrite (findDisplayOrder_ranked _ _ 0); [|exact Hrank].
    fold r. unfold next.
    destruct (decide (Z.of_nat 0 ≤ r < Z.of_nat (0 + length predictions)))
      as [Hin|Hout].
    - destruct (Nat.leb_spec (length predictions) (Z.to_nat r + 1));
        case_decide; lia.
    - case_decide; lia. }
  destruct (lookup_lt_is_Some_2 predictions (Z.to_nat next)) as [p Hp].
  { unfold next. case_decide; lia. }
  exists p. rewrite getSecondTrain_select by done. cbv zeta.
  rewrite Hlast, Hindex, Hp. split; [done|]. split; [done|].
  rewrite (Hrank _ _ Hp). unfold next. case_decide; lia.
Qed.

Lemma second_train_transition_witness :
  let t (order : Z) := TrainTime.mk "A" "1" None (order * 60) order None "" false in
  let predictions := [t 0; t 1; t 2] in
  let step (r next : Z) :=
    ∃ p, getSecondTrain predictions (remember (Some (t r)) new_MTAProvider)
         = (Returned (Some p),
            remember (Some p) (remember (Some (t r)) new_MTAProvider)) ∧
         predictions !! Z.to_nat next = Some p ∧
         TrainTime.display_order p = next in
  step 0 1 ∧ step 1 2 ∧ step 2 1 ∧ step 5 1 ∧ step (-1) 1.
Proof.
  intros t predictions step.
  assert (2 ≤ length predictions)%nat as Hlen by (simpl; lia).
  assert (ranked predictions) as Hrank.
  { intros [|[|[|i]]] p; simpl; intros [= <-]; reflexivity. }
  repeat split.
  - apply (second_train_transition predictions
             (remember (Some (t 0)) new_MTAProvider) (t 0) Hlen Hrank eq_refl).
  - apply (second_train_transition predictions
             (remember (Some (t 1)) new_MTAProvider) (t 1) Hlen Hrank eq_refl).
  - apply (second_train_transition predictions
             (remember (Some (t 2)) new_MTAProvider) (t 2) Hlen Hrank eq_refl).
  - apply (second_train_transition predictions
             (remember (Some (t 5)) new_MTAProvider) (t 5) Hlen Hrank eq_refl).
  - apply (second_train_transition predictions
             (remember (Some (t (-1))) new_MTAProvider) (t (-1)) Hlen Hrank eq_refl).
Defined.


(** * Properties of the application and of the renderers *)

(** ** One refresh *)

Lemma getPredictions_ranked this stopId direction now :
  ranked (getPredictions this stopId direction now).
Proof. intros i p Hp. by apply getPredictions_lookup in Hp as (_ & ? & _). Qed.

(** The rotation memory has no part in [getPredictions]. *)
Lemma getPredictions_remember t this stopId direction now :
  getPredictions (remember t this) stopId direction now
  = getPredictions this stopId direction now.
Proof. reflexivity. Qed.

Lemma refresh_cases now app :
  let l := getPredictions (provider app) (currentStation app)
                          (currentDirection app) now in
  (l = [] ∧ refresh now app = (Returned [], refreshed app l (provider app))) ∨
  (∃ first, l = [first] ∧
     refresh now app = (Returned [first], refreshed app l (provider app))) ∨
  (∃ first second,
     (2 ≤ length l)%nat ∧ l !! 0%nat = Some first ∧
     l !! secondIndex l (lastSecondTrain (provider app)) = Some second ∧
     refresh now app
     = (Returned [first; second],
        refreshed app l (remember (Some second) (provider app)))).
Proof.
  intros l. unfold refresh. fold l.
  destruct l as [|first [|second' rest]] eqn:Hl.
  - by left.
  - right; left. exists first. split; [done|].
    by rewrite getSecondTrain_short by (simpl; lia).
  - right; right.
    assert (2 ≤ length (first :: second' :: rest))%nat as Hlen by (simpl; lia).
    pose proof (secondIndex_bound _ (lastSecondTrain (provider app)) Hlen) as Hi.
    destruct (lookup_lt_is_Some_2 (first :: second' :: rest)
                (secondIndex (first :: second' :: rest)
                             (lastSecondTrain (provider app))))
      as [second Hsecond]; [lia|].
    exists first, second. split; [done|]. split; [done|]. split; [done|].
    rewrite getSecondTrain_select by done. cbv zeta. by rewrite Hsecond.
Qed.



(** ** Successive refreshes *)

Lemma secondIndex_ranked_order (l : list TrainTime) (m : nat) q :
  ranked l →
  (m + 1 < length l)%nat →
  TrainTime.display_order q = Z.of_nat (1 + m) →
  secondIndex l (Some q) = (1 + (m + 1) `mod` (length l - 1))%nat.
Proof.
  intros Hrank Hm Hq.
  unfold secondIndex. rewrite (findDisplayOrder_ranked _ _ 0); [|exact Hrank].
  rewrite Hq. case_decide; [|lia].
  rewrite Nat2Z.id.
  destruct (Nat.leb_spec (length l) (1 + m + 1)).
  - replace (m + 1)%nat with (length l - 1)%nat by lia.
    rewrite Nat.Div0.mod_same. lia.
  - rewrite Nat.mod_small; lia.
Qed.

Lemma refreshes_from (nows : list Date) app (N m : nat) q :
  Forall (λ now, length (found app now) = N) nows →
  (2 ≤ N)%nat →
  (m < N - 1)%nat →
  lastSecondTrain (provider app) = Some q →
  TrainTime.display_order q = Z.of_nat (1 + m) →
  ∃ displays app',
    refreshes nows app = (Returned displays, app') ∧
    length displays = length nows ∧
    ∀ (k : nat) now, nows !! k = Some now →
      ∃ first second,
        displays !! k = Some [first; second] ∧
        found app now !! 0%nat = Some first ∧
        found app now !! (1 + (m + 1 + k) `mod` (N - 1))%nat = Some second.
Proof.
  intros Hall HN. revert app m q Hall.
  induction nows as [|now rest IH]; intros app m q Hall Hm Hlast Hq.
  - exists [], app. repeat split. intros k ? [=].
  - apply Forall_cons in Hall as [Hlen Hrest].
    pose proof (getPredictions_ranked (provider app) (currentStation app)
                  (currentDirection app) now) as Hrank.
    unfold found in Hlen.
    destruct (refresh_cases now app)
      as [[Hl _]|[(first & Hl & _)|(first & second & _ & Hfirst & Hsecond & Hrefresh)]].
    { rewrite Hl in Hlen. simpl in Hlen. lia. }
    { rewrite Hl in Hlen. simpl in Hlen. lia. }
    rewrite Hlast, (secondIndex_ranked_order _ m q), Hlen in Hsecond
      by (done || lia).
    pose proof (Hrank _ _ Hsecond) as Hsecond_order.
    destruct (IH (refreshed app (found app now)
                            (remember (Some second) (provider app)))
                 ((m + 1) `mod` (N - 1))%nat second)
      as (more & app' & Hmore & Hlength & Hk).
    { exact Hrest. }
    { apply Nat.mod_upper_bound. lia. }
    { done. }
    { done. }
    exists ([first; second] :: more), app'. split.
    { cbn [refreshes]. rewrite Hrefresh. unfold found in Hmore. by rewrite Hmore. }
    split; [simpl; lia|].
    intros [|k] now' Hnow'; simpl in Hnow'.
    + injection Hnow' as <-. exists first, second.
      split; [done|]. split; [done|]. by rewrite Nat.add_0_r.
    + destruct (Hk k now' Hnow') as (first' & second' & Hd & Hf & Hs).
      exists first', second'. split; [done|]. split; [done|].
      replace ((m + 1 + S k) `mod` (N - 1))%nat
        with (((m + 1) `mod` (N - 1) + 1 + k) `mod` (N - 1))%nat; [done|].
      rewrite <- Nat.add_assoc, Nat.Div0.add_mod_idemp_l. f_equal; lia.
Qed.

(** X13. While the number [N >= 2] of predictions found stays the same
    from refresh to refresh, every refresh shows two rows: the first entry
    of the list found at that instant, and the entry at position
    [1 + (start + k) mod (N - 1)] for the [k]-th refresh, so the second row
    walks the positions 1, ..., N-1 in a cycle although every refresh
    builds a new list; an application whose provider remembers nothing
    starts at position 1. *)
Theorem refreshes_rotate_second_row (nows : list Date) app (N : nat) :
  Forall (λ now, length (found app now) = N) nows →
  (2 ≤ N)%nat →
  ∃ (start : nat) displays app',
    (start < N - 1)%nat ∧
    (lastSecondTrain (provider app) = None → start = 0%nat) ∧
    refreshes nows app = (Returned displays, app') ∧
    length displays = length nows ∧
    ∀ (k : nat) now, nows !! k = Some now →
      ∃ first second,
        displays !! k = Some [first; second] ∧
        found app now !! 0%nat = Some first ∧
        found app now !! (1 + (start + k) `mod` (N - 1))%nat = Some second ∧
        TrainTime.display_order first = 0 ∧
        TrainTime.display_order second
        = Z.of_nat (1 + (start + k) `mod` (N - 1)).
Proof.
  intros Hall HN.
  assert (∃ (start : nat) displays app',
    (start < N - 1)%nat ∧
    (lastSecondTrain (provider app) = None → start = 0%nat) ∧
    refreshes nows app = (Returned displays, app') ∧
    length displays = length nows ∧
    ∀ (k : nat) now, nows !! k = Some now →
      ∃ first second,
        displays !! k = Some [first; second] ∧
        found app now !! 0%nat = Some first ∧
        found app now !! (1 + (start + k) `mod` (N - 1))%nat = Some second)
    as (start & displays & app' & Hstart & Hfresh & Hrun & Hlength & Hk).
  { destruct nows as [|now rest].
    - exists 0%nat, [], app. repeat split; [lia|]. intros k ? [=].
    - apply Forall_cons in Hall as [Hlen Hrest].
      pose proof (getPredictions_ranked (provider app) (currentStation app)
                    (currentDirection app) now) as Hrank.
      unfold found in Hlen.
      destruct (refresh_cases now app)
        as [[Hl _]|[(first & Hl & _)|(first & second & Hlen2 & Hfirst & Hsecond & Hrefresh)]].
      { rewrite Hl in Hlen. simpl in Hlen. lia. }
      { rewrite Hl in Hlen. simpl in Hlen. lia. }
      pose proof (secondIndex_bound _ (lastSecondTrain (provider app)) Hlen2) as Hi.
      set (j0 := secondIndex _ (lastSecondTrain (provider app))) in *.
      rewrite Hlen in Hi.
      pose proof (Hrank _ _ Hsecond) as Hsecond_order.
      destruct (refreshes_from rest
                  (refreshed app (found app now)
                             (remember (Some second) (provider app)))
                  N (j0 - 1) second)
        as (more & app' & Hmore & Hlength & Hk).
      { exact Hrest. }
      { done. }
      { lia. }
      { done. }
      { rewrite Hsecond_order. f_equal. lia. }
      exists (j0 - 1)%nat, ([first; second] :: more), app'.
      split; [lia|]. split.
      { intros Hnone. unfold j0. by rewrite Hnone. }
      split.
      { cbn [refreshes]. rewrite Hrefresh. unfold found in Hmore. by rewrite Hmore. }
      split; [simpl; lia|].
      intros [|k] now' Hnow'; simpl in Hnow'.
      + injection Hnow' as <-. exists first, second.
        split; [done|]. split; [done|].
        rewrite Nat.add_0_r, Nat.mod_small by lia.
        by replace (1 + (j0 - 1))%nat with j0 by lia.
      + destruct (Hk k now' Hnow') as (first' & second' & Hd & Hf & Hs).
        exists first', second'. split; [done|]. split; [done|].
        by replace (j0 - 1 + S k)%nat with (j0 - 1 + 1 + k)%nat by lia. }
  exists start, displays, app'.
  split; [done|]. split; [done|]. split; [done|]. split; [done|].
  intros k now Hnow.
  destruct (Hk k now Hnow) as (first & second & Hd & Hf & Hs).
  exists first, second. split; [done|]. split; [done|]. split; [done|].
  unfold found in Hf, Hs. split.
  - apply (getPredictions_ranked _ _ _ _ _ _ Hf).
  - apply (getPredictions_ranked _ _ _ _ _ _ Hs).
Qed.


Lemma refreshes_rotate_second_row_witness :
  let r (departure : Z) :=
    HistoricalTrainTime.mk "C" "1" (Some "Euclid Av") departure "" DayType.WEEKDAY in
  let app :=
    {| provider :=
         {| historicalData := Some {[ "A20"%string := [r 900; r 1800; r 2700] ]};
            stations := []; childStationIds := ∅; lastSecondTrain := None |};
       currentStation := "A20"; currentDirection := None; predictions := [] |} in
  let nows := [Build_Date 3 0 0 0; Build_Date 3 0 0 5; Build_Date 3 0 0 10;
               Build_Date 3 0 0 15] in
  ∃ (start : nat) displays app',
    (start < 3 - 1)%nat ∧
    (lastSecondTrain (provider app) = None → start = 0%nat) ∧
    refreshes nows app = (Returned displays, app') ∧
    length displays = length nows ∧
    ∀ (k : nat) now, nows !! k = Some now →
      ∃ first second,
        displays !! k = Some [first; second] ∧
        found app now !! 0%nat = Some first ∧
        found app now !! (1 + (start + k) `mod` (3 - 1))%nat = Some second ∧
        TrainTime.display_order first = 0 ∧
        TrainTime.display_order second
        = Z.of_nat (1 + (start + k) `mod` (3 - 1)).
Proof.
  intros r app nows.
  apply (refreshes_rotate_second_row nows app 3).
  - repeat constructor.
  - lia.
Defined.

(** ** The direction label *)

(** X14. The direction label is never empty: for direction 0 it is the
    station's north label, or "Uptown" when that label is empty; for
    direction 1 the south label, or "Downtown"; for no direction, and for
    any other direction, "Both". *)
Theorem direction_label_never_empty app (station : Station) :
  let label := getDirectionLabel app station in
  label ≠ "" ∧
  (currentDirection app = Some 0 →
   label = if decide (Station.north_direction_label station = "")
           then "Uptown" else Station.north_direction_label station) ∧
  (currentDirection app = Some 1 →
   label = if decide (Station.south_direction_label station = "")
           then "Downtown" else Station.south_direction_label station) ∧
  (currentDirection app ≠ Some 0 → currentDirection app ≠ Some 1 →
   label = "Both").
Proof.
  unfold getDirectionLabel.
  assert (∀ s fallback, fallback ≠ "" →
            orElse s fallback ≠ "" ∧
            orElse s fallback = if decide (s = "") then fallback else s) as Hor.
  { intros [|a s] fallback Hf; simpl; (split; [done|]); try case_decide; done. }
  destruct (currentDirection app) as [d|]; cbv zeta.
  - destruct (Z.eqb_spec d 0) as [->|H0].
    { destruct (Hor (Station.north_direction_label station) "Uptown") as [? ?];
        [done|]. repeat split; try done. }
    destruct (Z.eqb_spec d 1) as [->|H1].
    { destruct (Hor (Station.south_direction_label station) "Downtown") as [? ?];
        [done|]. repeat split; try done. }
    repeat split; try done; intros [=]; done.
  - repeat split; done.
Qed.

(** ** The rows *)

Lemma minutes_div (train : TrainTime) :
  minutes train = (TrainTime.time train + 30) / 60.
Proof.
  unfold minutes, Math_round.
  rewrite (Zdiv_Qdiv (TrainTime.time train + 30) 60).
  apply Qfloor_comp. rewrite inject_Z_plus. field.
Qed.

(** X15. The minutes of a row are the wait rounded to the nearest minute,
    a half minute going up: the wait lies from 30 seconds below to less
    than 30 seconds above the minutes shown.  A longer wait never shows
    fewer minutes, and the minutes of a returned prediction lie between 0
    and 60. *)
Theorem minutes_round_to_nearest :
  (∀ train,
     60 * minutes train - 30 ≤ TrainTime.time train < 60 * minutes train + 30) ∧
  (∀ a b, TrainTime.time a ≤ TrainTime.time b → minutes a ≤ minutes b) ∧
  (∀ this stopId direction now,
     Forall (λ p, 0 ≤ minutes p ≤ 60)
            (getPredictions this stopId direction now)).
Proof.
  split; [|split].
  - intros train. rewrite minutes_div.
    pose proof (Z.div_mod (TrainTime.time train + 30) 60).
    pose proof (Z.mod_pos_bound (TrainTime.time train + 30) 60). lia.
  - intros a b Hab. rewrite !minutes_div. apply Z.div_le_mono; lia.
  - intros this stopId direction now. apply Forall_forall.
    intros p (i & Hp)%list_elem_of_lookup_1.
    apply getPredictions_lookup in Hp as (_ & _ & Hp).
    apply list_elem_of_lookup_2 in Hp. rewrite (array_sort_perm byTime) in Hp.
    unfold collectedPredictions in Hp.
    destruct (historicalData this) as [hd|]; [|by apply elem_of_nil in Hp].
    apply elem_of_collectPredictions in Hp as (id & h & _ & _ & Hp).
    apply predictionOf_fields in Hp as (Ht & _).
    rewrite minutes_div. destruct p as [? ? ? t ? ? ? ?]; simpl in *.
    pose proof (Z.div_mod (t + 30) 60).
    pose proof (Z.mod_pos_bound (t + 30) 60). lia.
Qed.

(** X16. The blink animation is started only over a first row drawn in the
    arriving colour: [shouldBlink] holds exactly when the first prediction
    waits more than 20 and at most 30 seconds, and that row is then amber.
    Its minutes read 0 for a wait below 30 seconds and 1 for a wait of
    exactly 30.  A row other than the first is always green. *)
Theorem blink_only_over_arriving_row (displayed : list TrainTime) :
  (shouldBlink displayed = true ↔
   ∃ first, displayed !! 0%nat = Some first ∧ 20 < TrainTime.time first ≤ 30) ∧
  (∀ first, shouldBlink displayed = true → displayed !! 0%nat = Some first →
     isArriving first 0 = true ∧
     textColor first 0 = MTA_RED_AMBER ∧
     (TrainTime.time first < 30 → minutesText first = "0min") ∧
     (TrainTime.time first = 30 → minutesText first = "1min")) ∧
  (∀ train (rowIndex : nat), rowIndex ≠ 0%nat →
     textColor train rowIndex = MTA_GREEN) ∧
  (∀ train, textColor train 0 = MTA_RED_AMBER ↔ TrainTime.time train ≤ 30).
Proof.
  assert (shouldBlink displayed = true ↔
    ∃ first, displayed !! 0%nat = Some first ∧ 20 < TrainTime.time first ≤ 30)
    as Hblink.
  { unfold shouldBlink. destruct displayed as [|first rest]; simpl.
    - split; [done|]. by intros (? & [=] & _).
    - rewrite andb_true_iff, Z.gtb_lt, Z.leb_le. split.
      + intros [? ?]. exists first. split; [done|lia].
      + intros (? & [= <-] & ?). lia. }
  split; [done|]. split; [|split].
  - intros first Hb Hfirst.
    apply Hblink in Hb as (first' & Hfirst' & Ht).
    rewrite Hfirst in Hfirst'. injection Hfirst' as <-.
    assert (isArriving first 0 = true) as Harr.
    { unfold isArriving. simpl. rewrite andb_true_r. apply Z.leb_le. lia. }
    split; [done|]. split; [unfold textColor; by rewrite Harr|].
    unfold minutesText. rewrite minutes_div. split.
    + intros Hlt. by rewrite (Z.div_small (TrainTime.time first + 30) 60) by lia.
    + intros ->. done.
  - intros train [|rowIndex] Hrow; [done|].
    unfold textColor, isArriving. simpl. by rewrite andb_false_r.
  - intros train. unfold textColor, isArriving. simpl. rewrite andb_true_r.
    destruct (Z.leb_spec (TrainTime.time train) 30); split; try done; lia.
Qed.



(** ** Icons *)

Lemma isExpressTrain_route routeId tripId :
  isExpressTrain routeId tripId = true → routeId = "4" ∨ routeId = "6".
Proof. intros H. by apply isExpressTrain_spec in H as [? _]. Qed.

(** X18. [preloadIcons] asks for every icon file that drawing a configured
    route can need, express or not, and for no file twice.  The express
    file exists only for the routes "4" and "6": for every other route the
    express flag does not change the file.  For a returned prediction the
    express file is chosen exactly when the prediction is express. *)
Theorem preload_covers_configured_routes :
  (∀ route isExpress,
     route ∈ ROUTE_COLORS.*1 →
     getIconFilename route isExpress ∈ preloadIcons_files) ∧
  NoDup preloadIcons_files ∧
  (∀ route, route ≠ "4" → route ≠ "6" →
            getIconFilename route true = getIconFilename route false) ∧
  (∀ this stopId direction now,
     Forall (λ p, getIconFilename (TrainTime.route_id p) (TrainTime.is_express p)
                  = "mta_" +:+ TrainTime.route_id p +:+
                    (if TrainTime.is_express p then "_express.png" else ".png"))
            (getPredictions this stopId direction now)).
Proof.
  split; [|split; [|split]].
  - intros route isExpress Hroute.
    cbn in Hroute.
    repeat (apply elem_of_cons in Hroute as [->|Hroute]);
      try (by apply elem_of_nil in Hroute);
      destruct isExpress; apply (bool_decide_unpack _); vm_compute; exact I.
  - apply (bool_decide_unpack _). vm_compute. exact I.
  - intros route H4 H6. unfold getIconFilename.
    destruct (String.eqb_spec route "4"); [done|].
    destruct (String.eqb_spec route "6"); done.
  - intros this stopId direction now. apply Forall_forall. intros p Hp.
    apply getPredictions_origin in Hp as (hd & id & h & _ & _ & _ & Htrip & Hroute & Hexp).
    unfold getIconFilename. destruct (TrainTime.is_express p) eqn:He; [|done].
    symmetry in Hexp. apply isExpressTrain_route in Hexp.
    rewrite Hroute. by destruct Hexp as [-> | ->].
Qed.

(** ** Colours *)

Lemma hexDigit_range (c : Ascii.ascii) v : hexDigit c = Some v → 0 ≤ v ≤ 15.
Proof.
  unfold hexDigit. cbv zeta.
  repeat match goal with
         | |- context [?a <=? ?b] => destruct (Z.leb_spec a b); simpl
         end; intros [= <-]; lia.
Qed.

Lemma parseHexPair_range (hi lo : Ascii.ascii) v :
  parseHexPair hi lo = Some v → 0 ≤ v ≤ 255.
Proof.
  unfold parseHexPair.
  destruct (hexDigit hi) as [h|] eqn:Hh; [|done].
  destruct (hexDigit lo) as [l|] eqn:Hl; [|done].
  apply hexDigit_range in Hh, Hl. intros [= <-]. lia.
Qed.

(** X19. [hexToRgb] never fails and never leaves the range of a byte:
    every component lies in [0, 255].  A string that is not six characters
    long, or seven with a leading "#", gives black, as does one with a
    character, other than a leading "#", that is no hexadecimal digit; and
    a "#" in front of a string that has none changes nothing. *)
Theorem hexToRgb_components_are_bytes :
  (∀ hex, 0 ≤ RGB.r (hexToRgb hex) ≤ 255 ∧
          0 ≤ RGB.g (hexToRgb hex) ≤ 255 ∧
          0 ≤ RGB.b (hexToRgb hex) ≤ 255) ∧
  (∀ hex, String.length hex ≠ 6%nat → String.length hex ≠ 7%nat →
          hexToRgb hex = RGB.mk 0 0 0) ∧
  (∀ c hex, c ≠ "#"%char → String.length hex = 6%nat →
            hexToRgb (String c hex) = RGB.mk 0 0 0) ∧
  (∀ c hex, hexDigit c = None → c ∈ String.list_ascii_of_string hex →
            hexToRgb ("#" +:+ hex) = RGB.mk 0 0 0 ∧
            (∀ c0 rest, hex = String c0 rest → c0 ≠ "#"%char →
                        hexToRgb hex = RGB.mk 0 0 0)) ∧
  (∀ c hex, c ≠ "#"%char →
            hexToRgb ("#" +:+ String c hex) = hexToRgb (String c hex)).
Proof.
  assert (∀ digits,
    let rgb :=
      match digits with
      | String r1 (String r2 (String g1 (String g2 (String b1 (String b2 EmptyString))))) =>
          match parseHexPair r1 r2, parseHexPair g1 g2, parseHexPair b1 b2 with
          | Some r, Some g, Some b => RGB.mk r g b
          | _, _, _ => RGB.mk 0 0 0
          end
      | _ => RGB.mk 0 0 0
      end in
    (0 ≤ RGB.r rgb ≤ 255 ∧ 0 ≤ RGB.g rgb ≤ 255 ∧ 0 ≤ RGB.b rgb ≤ 255) ∧
    (String.length digits ≠ 6%nat → rgb = RGB.mk 0 0 0) ∧
    (∀ c, hexDigit c = None → c ∈ String.list_ascii_of_string digits →
          rgb = RGB.mk 0 0 0)) as Hdigits.
  { intros digits.
    destruct digits as [|r1 [|r2 [|g1 [|g2 [|b1 [|b2 [|x rest]]]]]]];
      try (simpl; repeat split; (lia || done)).
    cbv zeta.
    destruct (parseHexPair r1 r2) as [r|] eqn:Hr;
      [|simpl; repeat split; (lia || done)].
    destruct (parseHexPair g1 g2) as [g|] eqn:Hg;
      [|simpl; repeat split; (lia || done)].
    destruct (parseHexPair b1 b2) as [b|] eqn:Hb;
      [|simpl; repeat split; (lia || done)].
    pose proof (parseHexPair_range _ _ _ Hr).
    pose proof (parseHexPair_range _ _ _ Hg).
    pose proof (parseHexPair_range _ _ _ Hb).
    split; [simpl; lia|]. split; [simpl; lia|].
    intros c Hc Hin. exfalso.
    unfold parseHexPair in Hr, Hg, Hb. simpl in Hin.
    repeat (apply elem_of_cons in Hin as [->|Hin]);
      try (by apply elem_of_nil in Hin);
      rewrite Hc in *; try done;
      repeat match goal with
             | H : match hexDigit ?x with _ => _ end = Some _ |- _ =>
                 destruct (hexDigit x); try done
             end. }
  split; [|split; [|split; [|split]]].
  - intros hex. unfold hexToRgb.
    destruct hex as [|c hex]; [simpl; lia|].
    destruct (Ascii.eqb_spec c "#"%char) as [->|Hc].
    + apply (Hdigits hex).
    + assert (match String c hex with
              | String "#"%char rest => rest
              | _ => String c hex
              end = String c hex) as ->.
      { destruct c as [[] [] [] [] [] [] [] []]; done. }
      apply (Hdigits (String c hex)).
  - intros hex H6 H7. unfold hexToRgb.
    destruct hex as [|c hex]; [done|].
    destruct (Ascii.eqb_spec c "#"%char) as [->|Hc].
    + apply (Hdigits hex). simpl in H7. lia.
    + assert (match String c hex with
              | String "#"%char rest => rest
              | _ => String c hex
              end = String c hex) as ->.
      { destruct c as [[] [] [] [] [] [] [] []]; done. }
      by apply (Hdigits (String c hex)).
  - intros c hex Hc Hlen. unfold hexToRgb.
    assert (match String c hex with
            | String "#"%char rest => rest
            | _ => String c hex
            end = String c hex) as ->.
    { destruct c as [[] [] [] [] [] [] [] []]; done. }
    apply (Hdigits (String c hex)). simpl. lia.
  - intros c hex Hc Hin. split.
    + unfold hexToRgb. simpl. by apply (Hdigits hex) with c.
    + intros c0 rest -> Hc0. unfold hexToRgb.
      assert (match String c0 rest with
              | String "#"%char rest' => rest'
              | _ => String c0 rest
              end = String c0 rest) as ->.
      { destruct c0 as [[] [] [] [] [] [] [] []]; done. }
      by apply (Hdigits (String c0 rest)) with c.
  - intros c hex Hc. unfold hexToRgb. simpl.
    destruct c as [[] [] [] [] [] [] [] []]; done.
Qed.


Lemma tint_div (grayscale channel : Z) :
  tint grayscale channel = (2 * grayscale * channel + 255) / 510.
Proof.
  unfold tint, Math_round.
  rewrite (Zdiv_Qdiv (2 * grayscale * channel + 255) 510).
  apply Qfloor_comp. rewrite inject_Z_plus, !inject_Z_mult. field.
Qed.

Lemma applyColor_pixel (targetColor : RGB) (k : nat) (data : list Z)
    grayscale g b a :
  data !! (k * 4)%nat = Some grayscale →
  data !! (k * 4 + 1)%nat = Some g →
  data !! (k * 4 + 2)%nat = Some b →
  data !! (k * 4 + 3)%nat = Some a →
  applyColor targetColor data !! (k * 4)%nat
  = Some (tint grayscale (RGB.r targetColor)) ∧
  applyColor targetColor data !! (k * 4 + 1)%nat
  = Some (tint grayscale (RGB.g targetColor)) ∧
  applyColor targetColor data !! (k * 4 + 2)%nat
  = Some (tint grayscale (RGB.b targetColor)) ∧
  applyColor targetColor data !! (k * 4 + 3)%nat = Some a.
Proof.
  revert data. induction k as [|k IH]; intros data H0 H1 H2 H3.
  - destruct data as [|x0 [|x1 [|x2 [|x3 rest]]]]; try done.
    simpl in *. by simplify_eq.
  - destruct data as [|x0 [|x1 [|x2 [|x3 rest]]]]; try done.
    simpl in *. by apply IH.
Qed.

Lemma applyColor_length (targetColor : RGB) (data : list Z) :
  length (applyColor targetColor data) = length data.
Proof.
  enough (∀ n data, (length data ≤ n)%nat →
            length (applyColor targetColor data) = length data) as H
    by by apply (H (length data)).
  induction n as [|n IH]; intros [|x0 [|x1 [|x2 [|x3 rest]]]] Hlen;
    simpl in *; try done; try lia.
  rewrite IH; [done|lia].
Qed.

(** X21. Colouring an icon keeps the number of bytes and every alpha byte,
    and sets the three colour bytes of each pixel from its first byte
    alone.  For a grey level and a colour component that are bytes the new
    byte lies between 0 and the component, grows with the grey level, is 0
    for black and the component itself for white: a written value is never
    clamped. *)
Theorem applyColor_scales_each_pixel (targetColor : RGB) (data : list Z) :
  length (applyColor targetColor data) = length data ∧
  (∀ (k : nat) grayscale g b a,
     data !! (k * 4)%nat = Some grayscale →
     data !! (k * 4 + 1)%nat = Some g →
     data !! (k * 4 + 2)%nat = Some b →
     data !! (k * 4 + 3)%nat = Some a →
     applyColor targetColor data !! (k * 4)%nat
     = Some (tint grayscale (RGB.r targetColor)) ∧
     applyColor targetColor data !! (k * 4 + 1)%nat
     = Some (tint grayscale (RGB.g targetColor)) ∧
     applyColor targetColor data !! (k * 4 + 2)%nat
     = Some (tint grayscale (RGB.b targetColor)) ∧
     applyColor targetColor data !! (k * 4 + 3)%nat = Some a) ∧
  (∀ grayscale channel,
     0 ≤ grayscale ≤ 255 → 0 ≤ channel ≤ 255 →
     0 ≤ tint grayscale channel ≤ channel ∧
     tint 0 channel = 0 ∧ tint 255 channel = channel ∧
     ∀ lighter, grayscale ≤ lighter ≤ 255 →
                tint grayscale channel ≤ tint lighter channel).
Proof.
  split; [apply applyColor_length|].
  split; [intros k grayscale g b a; apply applyColor_pixel|].
  intros grayscale channel Hg Hc. rewrite !tint_div.
  split; [|split; [|split]].
  - split.
    + apply Z.div_pos; nia.
    + apply Z.lt_succ_r, Z.div_lt_upper_bound; nia.
  - by rewrite Z.div_small by lia.
  - symmetry. apply (Z.div_unique _ _ _ 255); lia.
  - intros lighter Hl. rewrite tint_div. apply Z.div_le_mono; nia.
Qed.

(** ** Pixels *)

(** X22. [setPixel] leaves the image untouched for a coordinate outside
    the 160 x 32 display and never changes its size.  For a coordinate
    inside, on an image of 160 x 32 x 4 bytes, it writes the three bytes of
    the colour and an opaque alpha at the four bytes of that pixel and
    changes no byte of any other pixel. *)
Theorem setPixel_writes_one_pixel (x y : Z) (color : string) (data : list Z) :
  let index := (y * DISPLAY_WIDTH + x) * 4 in
  let inside := 0 ≤ x < DISPLAY_WIDTH ∧ 0 ≤ y < DISPLAY_HEIGHT in
  length (setPixel x y color data) = length data ∧
  (¬ inside → setPixel x y color data = data) ∧
  (inside → Z.of_nat (length data) = DISPLAY_WIDTH * DISPLAY_HEIGHT * 4 →
   0 ≤ index ∧ index + 3 < Z.of_nat (length data) ∧
   setPixel x y color data !! Z.to_nat index = Some (RGB.r (hexToRgb color)) ∧
   setPixel x y color data !! Z.to_nat (index + 1) = Some (RGB.g (hexToRgb color)) ∧
   setPixel x y color data !! Z.to_nat (index + 2) = Some (RGB.b (hexToRgb color)) ∧
   setPixel x y color data !! Z.to_nat (index + 3) = Some 255) ∧
  (inside →
   (∀ j : nat, ¬ (index ≤ Z.of_nat j ≤ index + 3) →
               setPixel x y color data !! j = data !! j) ∧
   (∀ x' y' c, 0 ≤ x' < DISPLAY_WIDTH → 0 ≤ y' < DISPLAY_HEIGHT →
               (x', y') ≠ (x, y) → 0 ≤ c ≤ 3 →
               setPixel x y color data !! Z.to_nat ((y' * DISPLAY_WIDTH + x') * 4 + c)
               = data !! Z.to_nat ((y' * DISPLAY_WIDTH + x') * 4 + c))).
Proof.
  intros index inside. unfold setPixel, inside, DISPLAY_WIDTH, DISPLAY_HEIGHT in *.
  fold index.
  destruct (Z.ltb_spec x 0); simpl;
    [repeat split; try done; intros; lia|].
  destruct (Z.geb_spec x 160); simpl;
    [repeat split; try done; intros; lia|].
  destruct (Z.ltb_spec y 0); simpl;
    [repeat split; try done; intros; lia|].
  destruct (Z.geb_spec y 32); simpl;
    [repeat split; try done; intros; lia|].
  assert (∀ j : nat, ¬ (index ≤ Z.of_nat j ≤ index + 3) →
    <[Z.to_nat (index + 3):=255]>
      (<[Z.to_nat (index + 2):=RGB.b (hexToRgb color)]>
         (<[Z.to_nat (index + 1):=RGB.g (hexToRgb color)]>
            (<[Z.to_nat index:=RGB.r (hexToRgb color)]> data))) !! j
    = data !! j) as Hother.
  { intros j Hj. unfold index in *.
    rewrite !list_lookup_insert_ne by lia. done. }
  split; [by rewrite !length_insert|].
  split; [intros Hout; lia|].
  split.
  - intros _ Hlen. unfold index in *.
    split; [lia|]. split; [lia|].
    split; [|split; [|split]].
    + rewrite !list_lookup_insert_ne by lia.
      apply list_lookup_insert_eq. lia.
    + rewrite !list_lookup_insert_ne by lia.
      apply list_lookup_insert_eq. rewrite !length_insert. lia.
    + rewrite !list_lookup_insert_ne by lia.
      apply list_lookup_insert_eq. rewrite !length_insert. lia.
    + apply list_lookup_insert_eq. rewrite !length_insert. lia.
  - intros _. split; [done|].
    intros x' y' c Hx' Hy' Hne Hc. apply Hother. unfold index.
    assert (x' ≠ x ∨ y' ≠ y) as Hxy.
    { destruct (decide (x' = x)) as [->|]; [|by left].
      right. intros ->. done. }
    lia.
Qed.


(** ** Truncation of the destination *)

Lemma string_app_cons (c : Ascii.ascii) (s1 s2 : string) :
  String c s1 +:+ s2 = String c (s1 +:+ s2).
Proof. reflexivity. Qed.

Lemma string_app_nil_l (s : string) : "" +:+ s = s.
Proof. reflexivity. Qed.

Lemma string_app_assoc (s1 s2 s3 : string) :
  (s1 +:+ s2) +:+ s3 = s1 +:+ (s2 +:+ s3).
Proof.
  induction s1 as [|c s1 IH]; [done|]. by rewrite !string_app_cons, IH.
Qed.

Lemma string_app_nil_r (s : string) : s +:+ "" = s.
Proof. induction s as [|c s IH]; [done|]. by rewrite string_app_cons, IH. Qed.

Lemma string_length_app (s1 s2 : string) :
  String.length (s1 +:+ s2) = (String.length s1 + String.length s2)%nat.
Proof.
  induction s1 as [|c s1 IH]; [done|]. rewrite string_app_cons. simpl.
  by rewrite IH.
Qed.

Lemma prefix_of_refl (s : string) : prefix_of s s.
Proof. exists "". by rewrite string_app_nil_r. Qed.

Lemma prefix_of_nil (s : string) : prefix_of "" s.
Proof. by exists s. Qed.

Lemma prefix_of_length (p s : string) :
  prefix_of p s → (String.length p ≤ String.length s)%nat.
Proof. intros [rest ->]. rewrite string_length_app. lia. Qed.

Lemma string_split_nonempty (sep : Ascii.ascii) (s : string) :
  string_split sep s ≠ [].
Proof.
  destruct s as [|c s]; simpl; [done|].
  destruct (Ascii.eqb c sep); [done|]. by destruct (string_split sep s).
Qed.

Lemma string_join_cons (sep part : string) (rest : list string) :
  rest ≠ [] →
  string_join sep (part :: rest) = part +:+ sep +:+ string_join sep rest.
Proof. by destruct rest. Qed.

(** Joining the parts of a split gives the string back. *)
Lemma string_join_split (sep : Ascii.ascii) (s : string) :
  string_join (String sep "") (string_split sep s) = s.
Proof.
  induction s as [|c s IH]; [done|]. cbn [string_split].
  destruct (Ascii.eqb_spec c sep) as [->|Hc].
  - rewrite string_join_cons by apply string_split_nonempty. simpl. by rewrite IH.
  - destruct (string_split sep s) as [|word others] eqn:Hsplit.
    { by apply string_split_nonempty in Hsplit. }
    destruct others as [|other others]; simpl in *; by rewrite <- IH.
Qed.

Lemma string_join_take_prefix (sep : string) (parts : list string) (i : nat) :
  prefix_of (string_join sep (take i parts)) (string_join sep parts).
Proof.
  revert i. induction parts as [|part rest IH]; intros i.
  - rewrite take_nil. apply prefix_of_refl.
  - destruct i as [|i]; [apply prefix_of_nil|]. cbn [take].
    destruct rest as [|part' rest]; [rewrite take_nil; apply prefix_of_refl|].
    rewrite (string_join_cons sep part (part' :: rest)) by done.
    destruct i as [|i].
    + simpl. by eexists.
    + destruct (IH (S i)) as [more Hmore]. rewrite Hmore.
      cbn [take] in *. rewrite string_join_cons by done.
      exists more. by rewrite !string_app_assoc.
Qed.

Lemma substring_to_prefix (i : nat) (s : string) : prefix_of (substring_to i s) s.
Proof.
  revert s. induction i as [|i IH]; intros [|c s]; simpl;
    try apply prefix_of_nil.
  destruct (IH s) as [rest Hrest]. exists rest.
  by rewrite string_app_cons, <- Hrest.
Qed.

Lemma startsWith_length (s sub : string) :
  startsWith s sub = true → (String.length sub ≤ String.length s)%nat.
Proof.
  intros [post ->]%startsWith_spec. rewrite string_length_app. lia.
Qed.

Lemma substring_from_length (i : nat) (s : string) :
  String.length (substring_from i s) = (String.length s - i)%nat.
Proof.
  revert s. induction i as [|i IH]; intros [|c s]; simpl; try done.
Qed.

Lemma string_replace_length (full abbr s : string) :
  (String.length abbr ≤ String.length full)%nat →
  (String.length (string_replace full abbr s) ≤ String.length s)%nat.
Proof.
  intros Hshort. induction s as [|c s IH]; cbn [string_replace].
  - destruct (startsWith "" full) eqn:Hstart; [|done].
    apply startsWith_length in Hstart.
    rewrite string_length_app, substring_from_length. simpl in *. lia.
  - destruct (startsWith (String c s) full) eqn:Hstart.
    + apply startsWith_length in Hstart.
      rewrite string_length_app, substring_from_length. simpl in *. lia.
    + simpl. lia.
Qed.

Lemma string_replace_absent (full abbr s : string) :
  includes s full = false → string_replace full abbr s = s.
Proof.
  induction s as [|c s IH]; cbn [includes string_replace].
  - rewrite orb_false_r. by intros ->.
  - intros [-> Hrest]%orb_false_elim. by rewrite IH.
Qed.

Lemma abbreviate_length (text : string) :
  (String.length (abbreviate text) ≤ String.length text)%nat.
Proof.
  unfold abbreviate, ABBREVIATIONS. simpl.
  repeat match goal with
         | |- (String.length (string_replace ?f ?a ?s) ≤ _)%nat =>
             etrans; [apply (string_replace_length f a s); simpl; lia|]
         end.
  done.
Qed.

Lemma truncateWords_Some fits (words : list string) (i : nat) truncated :
  truncateWords fits words i = Some truncated →
  fits truncated = true ∧
  ∃ j : nat, truncated = string_join " " (take j words).
Proof.
  induction i as [|i IH]; cbn [truncateWords]; [done|].
  destruct (fits (string_join " " (take (S i) words))) eqn:Hfits.
  - intros [= <-]. split; [done|]. by exists (S i).
  - apply IH.
Qed.

Lemma truncateChars_Some fits (abbreviated : string) (i : nat) truncated :
  truncateChars fits abbreviated i = Some truncated →
  fits truncated = true ∧ prefix_of truncated abbreviated.
Proof.
  induction i as [|i IH]; cbn [truncateChars]; [done|].
  destruct (fits (substring_to (S i) abbreviated)) eqn:Hfits.
  - intros [= <-]. split; [done|]. apply (substring_to_prefix (S i)).
  - apply IH.
Qed.

(** The results of [truncateTextSmart], step by step. *)
Lemma truncateTextSmart_cases fits (text : string) :
  let result := truncateTextSmart fits text in
  (fits text = true ∧ result = text) ∨
  (fits text = false ∧
   ((fits result = true ∧ prefix_of result text) ∨
    (fits result = true ∧ prefix_of result (abbreviate text)) ∨
    result = "")).
Proof.
  set (later :=
    if fits (abbreviate text) then abbreviate text
    else
      match truncateWords fits (string_split " " (abbreviate text))
              (length (string_split " " (abbreviate text)) - 1) with
      | Some truncated => truncated
      | None =>
          match truncateChars fits (abbreviate text)
                  (String.length (abbreviate text) - 1) with
          | Some truncated => truncated
          | None => ""
          end
      end).
  assert ((fits later = true ∧ prefix_of later (abbreviate text)) ∨ later = "")
    as Hlater.
  { unfold later. destruct (fits (abbreviate text)) eqn:Habbr.
    { left. split; [done|apply prefix_of_refl]. }
    destruct (truncateWords fits _ _) as [truncated|] eqn:Hwords.
    { apply truncateWords_Some in Hwords as (Hfits & j & ->).
      left. split; [done|].
      pose proof (string_join_take_prefix " "
                    (string_split " " (abbreviate text)) j) as Hp.
      by rewrite string_join_split in Hp. }
    destruct (truncateChars fits _ _) as [truncated|] eqn:Hchars.
    { apply truncateChars_Some in Hchars as (Hfits & Hp). by left. }
    by right. }
  unfold truncateTextSmart. cbv zeta. fold later.
  destruct (fits text) eqn:Htext; [by left|]. right. split; [done|].
  destruct (includes text "-"); [|tauto].
  destruct (fits (default "" (head (string_split "-" text)))) eqn:Hfits; [|tauto].
  left. split; [done|].
  pose proof (string_join_take_prefix "-" (string_split "-" text) 1) as Hp.
  rewrite string_join_split in Hp.
  destruct (string_split "-" text) as [|part rest]; [apply prefix_of_nil|].
  done.
Qed.

(** X23. A text that fits is returned as it is; and whatever
    [truncateTextSmart] returns either fits the available width or is the
    empty string. *)
Theorem truncated_text_fits (fits : string → bool) (text : string) :
  let result := truncateTextSmart fits text in
  (fits text = true → result = text) ∧
  (result = "" ∨ fits result = true).
Proof.
  cbv zeta.
  destruct (truncateTextSmart_cases fits text)
    as [[Hfits Hres]|[Hfits [[? _]|[[? _]|?]]]].
  - split; [done|]. right. by rewrite Hres.
  - split; [by rewrite Hfits|]. by right.
  - split; [by rewrite Hfits|]. by right.
  - split; [by rewrite Hfits|]. by left.
Qed.

(** X24. The text [truncateTextSmart] returns is a beginning of the text
    it was given or of that text with its abbreviations applied, and it is
    never longer than the given text.  When none of the four abbreviated
    words occurs in the text, the result is a beginning of the text
    itself. *)
Theorem truncated_text_is_a_beginning (fits : string → bool) (text : string) :
  let result := truncateTextSmart fits text in
  (prefix_of result text ∨ prefix_of result (abbreviate text)) ∧
  (String.length result ≤ String.length text)%nat ∧
  (Forall (λ entry, includes text entry.1 = false) ABBREVIATIONS →
   abbreviate text = text ∧ prefix_of result text).
Proof.
  cbv zeta. set (result := truncateTextSmart fits text).
  assert (prefix_of result text ∨ prefix_of result (abbreviate text)) as Hprefix.
  { unfold result.
    destruct (truncateTextSmart_cases fits text)
      as [[_ Hres]|[_ [[_ ?]|[[_ ?]|Hres]]]].
    - left. rewrite Hres. apply prefix_of_refl.
    - by left.
    - by right.
    - left. rewrite Hres. apply prefix_of_nil. }
  split; [done|]. split.
  - destruct Hprefix as [Hp|Hp]; apply prefix_of_length in Hp; [done|].
    pose proof (abbreviate_length text). lia.
  - intros Habsent.
    assert (abbreviate text = text) as Hsame.
    { unfold abbreviate, ABBREVIATIONS in *.
      apply Forall_cons in Habsent as [Hc Habsent].
      apply Forall_cons in Habsent as [HC Habsent].
      apply Forall_cons in Habsent as [Hj Habsent].
      apply Forall_cons in Habsent as [HJ _].
      cbn [fold_left fst snd] in *.
      rewrite (string_replace_absent _ _ _ Hc).
      rewrite (string_replace_absent _ _ _ HC).
      rewrite (string_replace_absent _ _ _ Hj).
      by rewrite (string_replace_absent _ _ _ HJ). }
    split; [done|]. rewrite Hsame in Hprefix. by destruct Hprefix.
Qed.

(** ** The provider before child stations *)

(** X25. For a stop that names no station, or a station without children
    or with an empty list of children, [getPredictions] returns what the
    earlier provider, which looks up the stop alone, returns. *)
Theorem child_merge_extends_single_stop this stopId direction now :
  (getStation this stopId = None ∨
   ∃ station, getStation this stopId = Some station ∧
              (Station.children station = None ∨
               Station.children station = Some [])) →
  getPredictions this stopId direction now
  = getPredictions_single this stopId direction now.
Proof.
  intros Hchildren.
  assert (stationIdsToCheck this stopId = [stopId]) as Hids.
  { unfold stationIdsToCheck.
    destruct Hchildren as [->|(station & -> & [->| ->])]; done. }
  unfold getPredictions, getPredictions_single.
  destruct (historicalData this) as [hd|]; [|done].
  rewrite Hids. unfold collectPredictions. simpl.
  by destruct (hd !! stopId).
Qed.

Lemma child_merge_extends_single_stop_witness :
  let r (departure : Z) :=
    HistoricalTrainTime.mk "C" "1" (Some "Euclid Av") departure "" DayType.WEEKDAY in
  let this :=
    {| historicalData := Some {[ "A20"%string := [r 1800; r 900; r 9000] ]};
       stations := [Station.mk "A20" "86 St" "Uptown" "Downtown" ["B"; "C"]%string None];
       childStationIds := ∅; lastSecondTrain := None |} in
  getPredictions this "A20" (Some 1) (Build_Date 3 0 0 30)
  = getPredictions_single this "A20" (Some 1) (Build_Date 3 0 0 30).
Proof.
  intros r this.
  apply (child_merge_extends_single_stop this "A20"%string (Some 1)
           (Build_Date 3 0 0 30)).
  right. eexists. split; [reflexivity|]. by left.
Defined.


(** ** A station that lists itself as a child *)

(** X26. The children are looked up in addition to the stop, without a
    check for repetition: for a station whose list of children is the
    station itself, every prediction of its records is collected twice,
    one copy of the list after the other, and the returned list holds
    the first six of twice as many. *)
Theorem self_listed_child_is_counted_twice this stopId direction now hd station :
  historicalData this = Some hd →
  getStation this stopId = Some station →
  Station.children station = Some [stopId] →
  let own := omap (predictionOf (getDayType now) direction
                                (getSecondsFromMidnight now))
                  (recordsOf hd stopId) in
  collectedPredictions this stopId direction now = own ++ own ∧
  length (getPredictions this stopId direction now)
  = (MAX_NUM_PREDICTIONS `min` (2 * length own))%nat.
Proof.
  intros Hhd Hstation Hchildren own.
  assert (collectedPredictions this stopId direction now = own ++ own) as Hc.
  { unfold collectedPredictions, stationIdsToCheck.
    rewrite Hhd, Hstation, Hchildren, collectPredictions_bind. csimpl.
    by rewrite app_nil_r. }
  split; [done|].
  rewrite getPredictions_length, Hc, length_app. f_equal. lia.
Qed.

Lemma self_listed_child_is_counted_twice_witness :
  let r (departure : Z) :=
    HistoricalTrainTime.mk "L" "0" (Some "8 Av") departure "" DayType.SATURDAY in
  let hd : HistoricalData := {[ "L06"%string := [r 600; r 1200] ]} in
  let station := Station.mk "L06" "1 Av" "Manhattan" "Brooklyn" ["L"%string]
                            (Some ["L06"%string]) in
  let this := {| historicalData := Some hd; stations := [station];
                 childStationIds := {[ "L06"%string ]};
                 lastSecondTrain := None |} in
  let now := Build_Date 6 0 0 0 in
  let own := omap (predictionOf (getDayType now) None
                                (getSecondsFromMidnight now))
                  (recordsOf hd "L06") in
  collectedPredictions this "L06" None now = own ++ own ∧
  length (getPredictions this "L06" None now)
  = (MAX_NUM_PREDICTIONS `min` (2 * length own))%nat.
Proof.
  intros r hd station this now.
  by apply (self_listed_child_is_counted_twice this "L06"%string None now hd
              station).
Defined.
